(** * statsd_exporter: a shallow embedding of exporter.go

    The development follows src/exporter.go: the name sanitizer
    [escapeMetricName], the StatsD line parser ([lineToEvents],
    [parseDogStatsDTagsToLabels], [buildEvent], [handlePacket]) and the
    exporter ([handleEvent], [saveLabelValues], [removeStaleMetrics]) with the
    four family containers.

    Conventions.
    - A Go [string] is a sequence of bytes: Rocq's [string] of [ascii].
    - A Go [float64] is a [spec_float] at precision 53 and emax 1024.
    - Go's [map[string]string] is a [gmap string string].
    - An index out of range or a write through a nil map is a run-time panic:
      the embedded function returns [None].
    - The self-instrumentation counters (sampleErrors, eventStats, ...) are
      process-wide; every [Inc()] is recorded, in program order, in a list of
      [Stat]. *)

From Stdlib Require Import ZArith Ascii String List Lia SpecFloat.
From stdpp Require Import gmap strings list fin_maps sorting.

Open Scope string_scope.
Open Scope list_scope.
Open Scope Z_scope.

(** ** Bytes and strings *)

Module Bytes.

Definition byte (c : ascii) : Z := Z.of_N (N_of_ascii c).

Definition chr (z : Z) : ascii := ascii_of_N (Z.to_N z).

(** [s[n:]]; the callers keep [n] within [len(s)]. *)
Fixpoint skip (n : nat) (s : string) : string :=
  match n, s with
  | O, _ => s
  | S n', String _ r => skip n' r
  | S _, EmptyString => EmptyString
  end.

(** [s[n]] for an index known to be in range ([None] models the panic). *)
Fixpoint at_ (n : nat) (s : string) : option ascii :=
  match s, n with
  | EmptyString, _ => None
  | String c _, O => Some c
  | String _ r, S n' => at_ n' r
  end.

Definition len (s : string) : Z := Z.of_nat (String.length s).

(** [c] does not occur in [s]. *)
Fixpoint lacks (c : ascii) (s : string) : Prop :=
  match s with
  | EmptyString => True
  | String a r => a <> c /\ lacks c r
  end.

Fixpoint lacksb (c : ascii) (s : string) : bool :=
  match s with
  | EmptyString => true
  | String a r => negb (Ascii.eqb a c) && lacksb c r
  end.

End Bytes.
Import Bytes.

(** ** package strings (the calls exporter.go makes) *)

Module strings.

(** [strings.Split(s, sep)] for a one-byte separator: every call in
    exporter.go passes ":", "|", "," or a newline.  The result is never empty:
    [Split("", sep)] is the one-element slice holding the empty string. *)
Fixpoint Split (s : string) (sep : ascii) : list string :=
  match s with
  | EmptyString => [EmptyString]
  | String c r =>
      if Ascii.eqb c sep then EmptyString :: Split r sep
      else match Split r sep with
           | h :: t => String c h :: t
           | [] => [String c EmptyString]
           end
  end.

(** [strings.SplitN(s, sep, 2)] for a one-byte separator: the text before the
    first separator and the whole remainder, or [s] alone. *)
Fixpoint SplitN2 (s : string) (sep : ascii) : list string :=
  match s with
  | EmptyString => [EmptyString]
  | String c r =>
      if Ascii.eqb c sep then [EmptyString; r]
      else match SplitN2 r sep with
           | h :: t => String c h :: t
           | [] => [String c EmptyString]
           end
  end.

Fixpoint HasPrefix (s prefix : string) {struct prefix} : bool :=
  match prefix, s with
  | EmptyString, _ => true
  | String p pr, String c r => Ascii.eqb c p && HasPrefix r pr
  | String _ _, EmptyString => false
  end.

(** [strings.Contains(s, substr)]. *)
Fixpoint Contains (s substr : string) : bool :=
  HasPrefix s substr ||
  match s with
  | EmptyString => false
  | String _ r => Contains r substr
  end.

(** [strings.Index(s, substr) == 0], the only use exporter.go makes of
    [Index]: the first occurrence is at offset 0 exactly when [substr] is a
    prefix. *)
Definition IndexIsZero (s substr : string) : bool := HasPrefix s substr.

Definition TrimPrefix (s prefix : string) : string :=
  if HasPrefix s prefix then skip (String.length prefix) s else s.

(** [strings.Join(elems, sep)]: how a sender puts several lines into one
    packet. *)
Fixpoint Join (elems : list string) (sep : ascii) : string :=
  match elems with
  | [] => EmptyString
  | [a] => a
  | a :: rest => a +:+ String sep (Join rest sep)
  end.

End strings.

(** ** package unicode/utf8 *)

Module utf8.

Definition RuneSelf : Z := 0x80.
Definition locb : Z := 0x80.
Definition hicb : Z := 0xBF.

Definition xx : Z := 0xF1.
Definition as_ : Z := 0xF0.
Definition s1 : Z := 0x02.
Definition s2 : Z := 0x13.
Definition s3 : Z := 0x03.
Definition s4 : Z := 0x23.
Definition s5 : Z := 0x34.
Definition s6 : Z := 0x04.
Definition s7 : Z := 0x44.

(** The table [first]: information about the first byte of an encoding. *)
Definition first (b : Z) : Z :=
  if b <? 0x80 then as_
  else if b <? 0xC2 then xx
  else if b <? 0xE0 then s1
  else if b =? 0xE0 then s2
  else if b <? 0xED then s3
  else if b =? 0xED then s4
  else if b <? 0xF0 then s3
  else if b =? 0xF0 then s5
  else if b <? 0xF4 then s6
  else if b =? 0xF4 then s7
  else xx.

(** [acceptRanges]: the legal range of the second byte. *)
Definition acceptRanges (i : Z) : Z * Z :=
  if i =? 0 then (locb, hicb)
  else if i =? 1 then (0xA0, hicb)
  else if i =? 2 then (locb, 0x9F)
  else if i =? 3 then (0x90, hicb)
  else if i =? 4 then (locb, 0x8F)
  else (0, 0).

Definition inRange (lohi : Z * Z) (o : option ascii) : bool :=
  match o with
  | Some c => (fst lohi <=? byte c) && (byte c <=? snd lohi)
  | None => false
  end.

(** One turn of the loop of [ValidString] at a byte [>= RuneSelf]: the size
    of the well-formed encoding that starts [s], or [None] where the loop
    returns false. *)
Definition validSize (s : string) : option nat :=
  match s with
  | EmptyString => None
  | String si _ =>
      let x := first (byte si) in
      if x =? xx then None
      else
        let size := Z.land x 7 in
        if len s <? size then None
        else
          let accept := acceptRanges (Z.shiftr x 4) in
          if negb (inRange accept (at_ 1 s)) then None
          else if size =? 2 then Some 2%nat
          else if negb (inRange (locb, hicb) (at_ 2 s)) then None
          else if size =? 3 then Some 3%nat
          else if negb (inRange (locb, hicb) (at_ 3 s)) then None
          else Some 4%nat
  end.

(** The loop [for i := 0; i < n; ] of [ValidString] on [s[i:]].  Every turn
    advances [i] by at least one, so [len(s)] turns suffice. *)
Fixpoint ValidString_loop (turns : nat) (s : string) : bool :=
  match s with
  | EmptyString => true
  | String si r =>
      match turns with
      | O => false
      | S turns' =>
          if byte si <? RuneSelf then ValidString_loop turns' r
          else match validSize s with
               | None => false
               | Some size => ValidString_loop turns' (skip size s)
               end
      end
  end.

Definition ValidString (s : string) : bool :=
  ValidString_loop (String.length s) s.

(** The width reported by [DecodeRuneInString]: 1 for an ASCII byte and for
    a byte that starts no well-formed encoding (the rune is then RuneError),
    else the size of the encoding. *)
Definition DecodeRuneInString_width (s : string) : nat :=
  match s with
  | EmptyString => 0%nat
  | String s0 _ =>
      let x := first (byte s0) in
      if as_ <=? x then 1%nat
      else
        let sz := Z.land x 7 in
        let accept := acceptRanges (Z.shiftr x 4) in
        if len s <? sz then 1%nat
        else if negb (inRange accept (at_ 1 s)) then 1%nat
        else if sz <=? 2 then 2%nat
        else if negb (inRange (locb, hicb) (at_ 2 s)) then 1%nat
        else if sz <=? 3 then 3%nat
        else if negb (inRange (locb, hicb) (at_ 3 s)) then 1%nat
        else 4%nat
  end.

End utf8.

(** ** escapeMetricName *)

(** The character class [[a-zA-Z0-9_]]; [illegalCharsRE] is its negation. *)
Definition isDigit (c : ascii) : bool :=
  (byte "0" <=? byte c) && (byte c <=? byte "9").

Definition legalChar (c : ascii) : bool :=
  ((byte "a" <=? byte c) && (byte c <=? byte "z"))
  || ((byte "A" <=? byte c) && (byte c <=? byte "Z"))
  || isDigit c
  || Ascii.eqb c "_".

(** [illegalCharsRE.ReplaceAllString(s, "_")].  Package regexp reads its
    input rune by rune: a byte below [RuneSelf] is a rune of its own, anything
    else is decoded by [utf8.DecodeRuneInString], and a byte that starts no
    well-formed encoding counts as the rune U+FFFD of width one.  No rune
    above 0x7F is in the class, so each one is a match and becomes one
    underscore. *)
Fixpoint ReplaceAllIllegal (turns : nat) (s : string) : string :=
  match turns, s with
  | _, EmptyString => EmptyString
  | O, String _ _ => EmptyString
  | S turns', String c r =>
      if byte c <? utf8.RuneSelf then
        String (if legalChar c then c else "_"%char) (ReplaceAllIllegal turns' r)
      else
        String "_" (ReplaceAllIllegal turns' (skip (utf8.DecodeRuneInString_width s) s))
  end.

(** [metricName[0]] panics on the empty string. *)
Definition escapeMetricName (metricName : string) : option string :=
  match metricName with
  | EmptyString => None
  | String c0 _ =>
      let metricName :=
        if isDigit c0 then String "_" metricName else metricName in
      Some (ReplaceAllIllegal (String.length metricName) metricName)
  end.

(** The sanitizer as section 4.5 of the specification words it: prepend an
    underscore if the first byte is an ASCII digit, then replace every byte
    outside the class by an underscore. *)
Fixpoint replace_every_byte (s : string) : string :=
  match s with
  | EmptyString => EmptyString
  | String c r => String (if legalChar c then c else "_"%char) (replace_every_byte r)
  end.

Definition sanitize_bytewise (n : string) : string :=
  match n with
  | EmptyString => EmptyString
  | String c0 _ => replace_every_byte (if isDigit c0 then String "_" n else n)
  end.

(** Every byte is in the class; every byte is below [RuneSelf]. *)
Fixpoint allLegal (s : string) : bool :=
  match s with
  | EmptyString => true
  | String c r => legalChar c && allLegal r
  end.

Fixpoint allASCII (s : string) : bool :=
  match s with
  | EmptyString => true
  | String c r => (byte c <? utf8.RuneSelf) && allASCII r
  end.

(** ** float64 *)

Module float64.

Definition prec : Z := 53.
Definition emax : Z := 1024.

Definition valid (x : spec_float) : bool := valid_binary prec emax x.

Definition zero : spec_float := S754_zero false.
Definition one : spec_float := S754_finite false 4503599627370496 (-52).

Definition div (x y : spec_float) : spec_float := SFdiv prec emax x y.
Definition eqb (x y : spec_float) : bool := SFeqb x y.
Definition ltb (x y : spec_float) : bool := SFltb x y.
Definition leb (x y : spec_float) : bool := SFleb x y.

(** The float64 nearest to an integer (Go's conversion of an untyped integer
    constant such as 1000). *)
Definition of_Z (z : Z) : spec_float := binary_normalize prec emax z 0 false.

(** The integer part of a finite value, rounded toward zero. *)
Definition trunc (x : spec_float) : option Z :=
  match x with
  | S754_zero _ => Some 0
  | S754_finite s m e => Some (cond_Zopp s (Z.shiftl (Zpos m) e))
  | S754_infinity _ | S754_nan => None
  end.

Definition minInt : Z := - 2 ^ 63.
Definition maxInt : Z := 2 ^ 63 - 1.

(** The conversion [int(x)] of a float64 to Go's 64-bit [int]: the fraction
    is discarded.  Where the truncated value does not fit, the language leaves
    the result to the implementation; this is the amd64 one (CVTTSD2SQ), the
    "integer indefinite" value [minInt], also for NaN and the infinities. *)
Definition to_int (x : spec_float) : Z :=
  match trunc x with
  | Some z => if (minInt <=? z) && (z <=? maxInt) then z else minInt
  | None => minInt
  end.

End float64.

(** ** Events *)

Abbreviation Labels := (gmap string string).

Inductive Event : Type :=
  | CounterEvent (metricName : string) (value : spec_float) (labels : Labels)
  | GaugeEvent (metricName : string) (value : spec_float) (relative : bool)
               (labels : Labels)
  | TimerEvent (metricName : string) (value : spec_float) (labels : Labels).

Abbreviation Events := (list Event).

Inductive MetricType : Type :=
  | MetricTypeCounter | MetricTypeGauge | MetricTypeTimer.

Definition MetricName (e : Event) : string :=
  match e with
  | CounterEvent n _ _ | GaugeEvent n _ _ _ | TimerEvent n _ _ => n
  end.

Definition Value (e : Event) : spec_float :=
  match e with
  | CounterEvent _ v _ | GaugeEvent _ v _ _ | TimerEvent _ v _ => v
  end.

Definition EventLabels (e : Event) : Labels :=
  match e with
  | CounterEvent _ _ l | GaugeEvent _ _ _ l | TimerEvent _ _ l => l
  end.

Definition EventMetricType (e : Event) : MetricType :=
  match e with
  | CounterEvent _ _ _ => MetricTypeCounter
  | GaugeEvent _ _ _ _ => MetricTypeGauge
  | TimerEvent _ _ _ => MetricTypeTimer
  end.

(** ** Self-instrumentation *)

(** One constructor per counter the code increments; the argument is the
    label value passed to [WithLabelValues]. *)
Inductive Stat : Type :=
  | udpPackets
  | linesReceived
  | samplesReceived
  | tagsReceived
  | tagErrors
  | sampleErrors (reason : string)
  | eventsUnmapped
  | eventStats (type : string)
  | conflictingEventStats (type : string).

#[global] Instance Stat_eq_dec : EqDecision Stat.
Proof. solve_decision. Defined.

(** How many times counter [s] was incremented in a log. *)
Definition incs (s : Stat) (log : list Stat) : nat :=
  length (filter (fun x => x = s) log).

(** ** The parser *)

Definition buildEvent (statType metric : string) (value : spec_float)
    (relative : bool) (labels : Labels) : Event + string :=
  if String.eqb statType "c" then inl (CounterEvent metric value labels)
  else if String.eqb statType "g" then inl (GaugeEvent metric value relative labels)
  else if String.eqb statType "ms" || String.eqb statType "h" then
    inl (TimerEvent metric value labels)
  else if String.eqb statType "s" then inr "no support for StatsD sets"
  else inr ("bad stat type " +:+ statType).

(** The loop over [tags] of [parseDogStatsDTagsToLabels]. *)
Fixpoint tagsLoop (tags : list string) (labels : Labels)
    : option (Labels * list Stat) :=
  match tags with
  | [] => Some (labels, [])
  | t :: tags' =>
      let t := strings.TrimPrefix t "#" in
      let kv := strings.SplitN2 t ":" in
      match kv with
      | [k; v] =>
          if len v =? 0 then
            '(labels', log) ← tagsLoop tags' labels;
            Some (labels', tagErrors :: log)
          else
            k' ← escapeMetricName k;
            tagsLoop tags' (<[k' := v]> labels)
      | _ =>
          '(labels', log) ← tagsLoop tags' labels;
          Some (labels', tagErrors :: log)
      end
  end.

Definition parseDogStatsDTagsToLabels (component : string)
    : option (Labels * list Stat) :=
  '(labels, log) ← tagsLoop (strings.Split component ",") ∅;
  Some (labels, tagsReceived :: log).

(** The variables of one turn of the [samples] loop that the loop over the
    modifier components assigns. *)
Record SampleVars : Type := mkVars {
  v_samplingFactor : spec_float;
  v_value : spec_float;
  v_multiplyEvents : Z;
  v_labels : Labels
}.

Section Parser.

(** [strconv.ParseFloat(s, 64)]: the value and whether [err != nil].  On a
    syntax error the library returns 0, on a range error an infinity. *)
Variable ParseFloat : string -> spec_float * bool.

(** The body of the second loop over [components[2:]]. *)
Definition componentStep (statType component : string) (v : SampleVars)
    : option (SampleVars * list Stat) :=
  match component with
  | EmptyString => None
  | String c0 component1 =>
      if Ascii.eqb c0 "@" then
        if negb (String.eqb statType "c") && negb (String.eqb statType "ms") then
          Some (v, [sampleErrors "illegal_sample_factor"])
        else
          let '(samplingFactor, err) := ParseFloat component1 in
          let log := if err then [sampleErrors "invalid_sample_factor"] else [] in
          let samplingFactor :=
            if float64.eqb samplingFactor float64.zero then float64.one
            else samplingFactor in
          if String.eqb statType "c" then
            Some (mkVars samplingFactor (float64.div (v_value v) samplingFactor)
                         (v_multiplyEvents v) (v_labels v), log)
          else if String.eqb statType "ms" then
            Some (mkVars samplingFactor (v_value v)
                         (float64.to_int (float64.div float64.one samplingFactor))
                         (v_labels v), log)
          else Some (mkVars samplingFactor (v_value v) (v_multiplyEvents v) (v_labels v), log)
      else if Ascii.eqb c0 "#" then
        '(labels, log) ← parseDogStatsDTagsToLabels component;
        Some (mkVars (v_samplingFactor v) (v_value v) (v_multiplyEvents v) labels, log)
      else
        Some (v, [sampleErrors "invalid_sample_factor"])
  end.

Fixpoint componentsLoop (statType : string) (components : list string)
    (v : SampleVars) : option (SampleVars * list Stat) :=
  match components with
  | [] => Some (v, [])
  | component :: rest =>
      '(v', log) ← componentStep statType component v;
      '(v'', log') ← componentsLoop statType rest v';
      Some (v'', log ++ log')
  end.

(** [for i := 0; i < multiplyEvents; i++]: [n] turns, each of which appends
    the event or counts an [illegal_event]. *)
Fixpoint emitLoop (n : nat) (statType metric : string) (value : spec_float)
    (relative : bool) (labels : Labels) : Events * list Stat :=
  match n with
  | O => ([], [])
  | S n' =>
      let '(events, log) := emitLoop n' statType metric value relative labels in
      match buildEvent statType metric value relative labels with
      | inr _ => (events, sampleErrors "illegal_event" :: log)
      | inl event => (event :: events, log)
      end
  end.

(** One turn of the loop labelled [samples]: the events the sample adds. *)
Definition sampleToEvents (metric sample : string)
    : option (Events * list Stat) :=
  let components := strings.Split sample "|" in
  if (length components <? 2)%nat || (4 <? length components)%nat then
    Some ([], [samplesReceived; sampleErrors "malformed_component"])
  else
    match components with
    | valueStr :: statType :: modifiers =>
        let relative :=
          strings.IndexIsZero valueStr "+" || strings.IndexIsZero valueStr "-" in
        let '(value, err) := ParseFloat valueStr in
        if err then Some ([], [samplesReceived; sampleErrors "malformed_value"])
        else if existsb (fun component => len component =? 0) modifiers then
          Some ([], [samplesReceived; sampleErrors "malformed_component"])
        else
          '(v, log) ← componentsLoop statType modifiers
                        (mkVars float64.one value 1 ∅);
          let '(events, log') :=
            emitLoop (Z.to_nat (v_multiplyEvents v)) statType metric
                     (v_value v) relative (v_labels v) in
          Some (events, samplesReceived :: log ++ log')
    | _ => None
    end.

End Parser.

Section LineParser.

Variable ParseFloat : string -> spec_float * bool.

(** The loop labelled [samples]. *)
Fixpoint samplesLoop (metric : string) (samples : list string)
    : option (Events * list Stat) :=
  match samples with
  | [] => Some ([], [])
  | sample :: rest =>
      '(events, log) ← sampleToEvents ParseFloat metric sample;
      '(events', log') ← samplesLoop metric rest;
      Some (events ++ events', log ++ log')
  end.

Definition lineToEvents (line : string) : option (Events * list Stat) :=
  if String.eqb line "" then Some ([], [])
  else
    match strings.SplitN2 line ":" with
    | [metric; rest] =>
        if (len metric =? 0) || negb (utf8.ValidString line) then
          Some ([], [sampleErrors "malformed_line"])
        else
          let samples :=
            if strings.Contains rest "|#" then [rest]
            else strings.Split rest ":" in
          samplesLoop metric samples
    | _ => Some ([], [sampleErrors "malformed_line"])
    end.

(** The loop over [lines] of [handlePacket]. *)
Fixpoint linesLoop (lines : list string) : option (Events * list Stat) :=
  match lines with
  | [] => Some ([], [])
  | line :: rest =>
      '(events, log) ← lineToEvents line;
      '(events', log') ← linesLoop rest;
      Some (events ++ events', linesReceived :: log ++ log')
  end.

Definition newline : ascii := chr 10.

(** [handlePacket]: the batch it sends on the channel [e] and the counters
    it increments on the way. *)
Definition handlePacket (packet : string) : option (Events * list Stat) :=
  '(events, log) ← linesLoop (strings.Split packet newline);
  Some (events, udpPackets :: log).

End LineParser.

(** [strconv.ParseFloat] on the short decimal literals of the examples:
    an optional sign, digits, an optional fraction.  With a mantissa below
    2^53 and at most 22 fraction digits both the mantissa and the power of
    ten are float64 values, and the library returns their correctly rounded
    quotient (its exact path).  Anything else is answered here like a syntax
    error, [(0, err)]; the theorems below hold for every [ParseFloat], this
    instance only feeds closed examples. *)
Module ShortDecimal.

Fixpoint digits (s : string) (acc : Z) (n : Z) : option (Z * Z * string) :=
  match s with
  | String c r =>
      if isDigit c then digits r (10 * acc + (byte c - byte "0")) (n + 1)
      else Some (acc, n, s)
  | EmptyString => Some (acc, n, s)
  end.

Definition unsigned (s : string) : option spec_float :=
  '(ip, ni, r) ← digits s 0 0;
  '(m, nf) ← match r with
             | EmptyString => Some (ip, 0)
             | String c r' =>
                 if Ascii.eqb c "." then
                   '(m, nf, r'') ← digits r' ip 0;
                   match r'' with EmptyString => Some (m, nf) | _ => None end
                 else None
             end;
  if (0 <? ni + nf) && (m <? 2 ^ 53) && (nf <=? 22) then
    Some (float64.div (float64.of_Z m) (float64.of_Z (10 ^ nf)))
  else None.

Definition ParseFloat (s : string) : spec_float * bool :=
  let '(neg, body) :=
    match s with
    | String c r =>
        if Ascii.eqb c "-" then (true, r)
        else if Ascii.eqb c "+" then (false, r) else (false, s)
    | EmptyString => (false, s)
    end in
  match unsigned body with
  | Some x => (if neg then SFopp x else x, false)
  | None => (float64.zero, true)
  end.

End ShortDecimal.

(** ** package time *)

(** An instant and a duration, both in nanoseconds.  [Add] and [Before] are
    those of [time.Time], away from the ends of its range. *)
Module time.
Definition Add (t d : Z) : Z := t + d.
Definition Before (t u : Z) : bool := t <? u.
End time.

(** ** package mapper *)

(** Modelled from the spec: the declarations of pkg/mapper that exporter.go
    uses ([ActionType], [TimerType], [MetricMapping], the defaults block and
    the result of [GetMapping]); the package is not among the sources.  A rule
    carries a rewritten name, an action (map or drop), optional help text, an
    optional TTL, quantile objectives, bucket boundaries and the timer-family
    choice between summary and histogram. *)
Inductive ActionType : Type := ActionTypeDefault | ActionTypeMap | ActionTypeDrop.

Inductive TimerType : Type :=
  TimerTypeDefault | TimerTypeHistogram | TimerTypeSummary.

Record MetricMapping : Type := mkMapping {
  Name : string;
  Action : ActionType;
  HelpText : string;
  Ttl : Z;
  MappingTimerType : TimerType;
  Quantiles : list (spec_float * spec_float);
  Buckets : list spec_float
}.

Record MapperDefaults : Type := mkDefaults {
  DefaultTtl : Z;
  DefaultTimerType : TimerType;
  DefaultQuantiles : list (spec_float * spec_float);
  DefaultBuckets : list spec_float
}.

(** [GetMapping] answers [(mapping, labels, present)]; [None] is the nil
    mapping.  The match cache does not change the answers. *)
Record MetricMapper : Type := mkMapper {
  GetMapping : string -> MetricType -> option MetricMapping * Labels * bool;
  Defaults : MapperDefaults
}.

(** The zero value [&mapper.MetricMapping{}]. *)
Definition emptyMapping : MetricMapping :=
  mkMapping "" ActionTypeDefault "" 0 TimerTypeDefault [] [].

(** The assignment [mapping.Ttl = ttl]. *)
Definition withTtl (m : MetricMapping) (ttl : Z) : MetricMapping :=
  mkMapping (Name m) (Action m) (HelpText m) ttl (MappingTimerType m)
            (Quantiles m) (Buckets m).

(** ** The Prometheus client library *)

(** What a child of a family was asked to do, oldest call first. *)
Inductive Op : Type :=
  | OpAdd (v : spec_float)
  | OpSet (v : spec_float)
  | OpObserve (v : spec_float).

(** A [CounterVec], [GaugeVec], [SummaryVec] or [HistogramVec]: its
    descriptor (help text and variable label names), its options (the
    objectives of a summary, the buckets of a histogram) and its children,
    keyed by the label values in the order of the label names. *)
Record Vec (O : Type) : Type := mkVec {
  vecHelp : string;
  vecLabelNames : list string;
  vecOpts : O;
  vecChildren : gmap (list string) (list Op)
}.
Arguments mkVec {O} _ _ _ _.
Arguments vecHelp {O} _.
Arguments vecLabelNames {O} _.
Arguments vecOpts {O} _.
Arguments vecChildren {O} _.

(** The default registry: the descriptor (help, label names) registered
    under each fully-qualified name. *)
Abbreviation Registry := (gmap string (string * list string)).

Definition defaultHelp : string := "Metric autogenerated by statsd_exporter.".

(** The order of [sort.Strings]: bytewise lexicographic. *)
Definition string_le (a b : string) : Prop := String.leb a b = true.

#[global] Instance string_le_dec : RelDecision string_le.
Proof. intros a b; unfold string_le; apply _. Defined.

(** [labelNames]: the keys of the label map, sorted. *)
Definition labelNames (labels : Labels) : list string :=
  merge_sort string_le (map fst (map_to_list labels)).

Section ClientLibrary.

(** The library's own checks: of a new descriptor (metric name and label
    names) at registration, and of a label value when a child is looked up. *)
Variable validDesc : string -> list string -> bool.
Variable validValue : string -> bool.

(** [prometheus.Register]: it fails on an invalid descriptor and when a
    collector is already registered under the name, with the same or with
    another label schema. *)
Definition Register (name help : string) (names : list string)
    (reg : Registry) : option Registry :=
  if negb (validDesc name names) then None
  else match reg !! name with
       | Some _ => None
       | None => Some (<[name := (help, names)]> reg)
       end.

(** The check that [GetMetricWith] and [Delete] make of a label map against
    the label names of the family. *)
Definition labelsFit (names : list string) (labels : Labels) : bool :=
  (length names =? size labels)%nat
  && forallb (fun '(_, v) => validValue v) (map_to_list labels)
  && forallb (fun n => bool_decide (is_Some (labels !! n))) names.

Definition childKey (names : list string) (labels : Labels) : list string :=
  map (fun n => default "" (labels !! n)) names.

(** [vec.GetMetricWith(labels)]: the key of the child, created when absent,
    or the error. *)
Definition GetMetricWith {O} (vec : Vec O) (labels : Labels)
    : Vec O * option (list string) :=
  if labelsFit (vecLabelNames vec) labels then
    let key := childKey (vecLabelNames vec) labels in
    match vecChildren vec !! key with
    | Some _ => (vec, Some key)
    | None =>
        (mkVec (vecHelp vec) (vecLabelNames vec) (vecOpts vec)
               (<[key := []]> (vecChildren vec)), Some key)
    end
  else (vec, None).

(** [vec.Delete(labels)]. *)
Definition vecDelete {O} (vec : Vec O) (labels : Labels) : Vec O :=
  if labelsFit (vecLabelNames vec) labels then
    mkVec (vecHelp vec) (vecLabelNames vec) (vecOpts vec)
          (delete (childKey (vecLabelNames vec) labels) (vecChildren vec))
  else vec.

(** A call on a child: the call is appended to what the child was asked. *)
Definition childDo {O} (op : Op) (key : list string) (vec : Vec O) : Vec O :=
  mkVec (vecHelp vec) (vecLabelNames vec) (vecOpts vec)
        (alter (fun ops => ops ++ [op]) key (vecChildren vec)).

(** ** The family containers *)

(** [Get] of the four containers, with the options of a new family as an
    argument: the container and the registry after the call and the key of
    the child, or [None] for the error. *)
Definition containerGet {O} (opts : O) (metricName : string) (labels : Labels)
    (help : string) (Elements : gmap string (Vec O)) (reg : Registry)
    : gmap string (Vec O) * Registry * option (list string) :=
  match Elements !! metricName with
  | Some vec =>
      let '(vec', r) := GetMetricWith vec labels in
      (<[metricName := vec']> Elements, reg, r)
  | None =>
      let vec := mkVec help (labelNames labels) opts ∅ in
      match Register metricName help (labelNames labels) reg with
      | None => (Elements, reg, None)
      | Some reg' =>
          let '(vec', r) := GetMetricWith vec labels in
          (<[metricName := vec']> Elements, reg', r)
      end
  end.

(** [Delete] of the four containers. *)
Definition containerDelete {O} (metricName : string) (labels : Labels)
    (Elements : gmap string (Vec O)) : gmap string (Vec O) :=
  match Elements !! metricName with
  | Some vec => <[metricName := vecDelete vec labels]> Elements
  | None => Elements
  end.

End ClientLibrary.

(** ** hashNameAndLabels *)

Module fnv.
Definition offset64 : Z := 14695981039346656037.
Definition prime64 : Z := 1099511628211.
(** [Write] of the 64-bit FNV-1a hash. *)
Definition Write (h : Z) (bytes : list Z) : Z :=
  fold_left (fun h b => (Z.lxor h b * prime64) mod 2 ^ 64) bytes h.
End fnv.

Fixpoint bytesOf (s : string) : list Z :=
  match s with
  | EmptyString => []
  | String c r => byte c :: bytesOf r
  end.

(** [binary.BigEndian.PutUint64]. *)
Definition PutUint64 (v : Z) : list Z :=
  map (fun i => Z.land (Z.shiftr v (8 * i)) 255) [7; 6; 5; 4; 3; 2; 1; 0].

(** ** The exporter *)

Record LabelValues : Type := mkLabelValues {
  lastRegisteredAt : Z;
  lvLabels : Labels;
  ttl : Z
}.

Abbreviation Objectives := (list (spec_float * spec_float)).

(** The exporter together with the process-wide state it works on: the
    default registry and the self-instrumentation counters. *)
Record Exporter : Type := mkExporter {
  Counters : gmap string (Vec unit);
  Gauges : gmap string (Vec unit);
  Summaries : gmap string (Vec Objectives);
  Histograms : gmap string (Vec (list spec_float));
  labelValues : gmap string (gmap Z LabelValues);
  registry : Registry;
  stats : list Stat
}.

Definition Inc (s : Stat) (b : Exporter) : Exporter :=
  mkExporter (Counters b) (Gauges b) (Summaries b) (Histograms b)
             (labelValues b) (registry b) (stats b ++ [s]).

Section ExporterOps.

Variable validDesc : string -> list string -> bool.
Variable validValue : string -> bool.
(** [model.LabelsToSignature] of prometheus/common. *)
Variable LabelsToSignature : Labels -> Z.
Variable mapper : MetricMapper.

Definition hashNameAndLabels (name : string) (labels : Labels) : Z :=
  fnv.Write (fnv.Write fnv.offset64 (bytesOf name))
            (PutUint64 (LabelsToSignature labels)).

(** [saveLabelValues]; [now] is what [clock.Now()] returns. *)
Definition saveLabelValues (now : Z) (metricName : string) (labels : Labels)
    (ttl : Z) (lv : gmap string (gmap Z LabelValues))
    : gmap string (gmap Z LabelValues) :=
  let metric := default ∅ (lv !! metricName) in
  let hash := hashNameAndLabels metricName labels in
  let metricLabelValues :=
    match metric !! hash with
    | Some r => r
    | None => mkLabelValues 0 labels ttl
    end in
  <[metricName :=
      <[hash := mkLabelValues now (lvLabels metricLabelValues) ttl]> metric]> lv.

(** [Get] of each container.  A new summary takes the quantiles of the rule,
    or the default ones when the rule has none, as its objectives; a new
    histogram takes its buckets likewise. *)
Definition CounterContainer_Get (metricName : string) (labels : Labels)
    (help : string) (Elements : gmap string (Vec unit)) (reg : Registry) :=
  containerGet validDesc validValue tt metricName labels help Elements reg.

Definition GaugeContainer_Get (metricName : string) (labels : Labels)
    (help : string) (Elements : gmap string (Vec unit)) (reg : Registry) :=
  containerGet validDesc validValue tt metricName labels help Elements reg.

Definition SummaryContainer_Get (metricName : string) (labels : Labels)
    (help : string) (mapping : MetricMapping)
    (Elements : gmap string (Vec Objectives)) (reg : Registry) :=
  let quantiles :=
    match Quantiles mapping with
    | [] => DefaultQuantiles (Defaults mapper)
    | qs => qs
    end in
  containerGet validDesc validValue quantiles metricName labels help Elements reg.

Definition HistogramContainer_Get (metricName : string) (labels : Labels)
    (help : string) (mapping : MetricMapping)
    (Elements : gmap string (Vec (list spec_float))) (reg : Registry) :=
  let buckets :=
    match Buckets mapping with
    | [] => DefaultBuckets (Defaults mapper)
    | bs => bs
    end in
  containerGet validDesc validValue buckets metricName labels help Elements reg.

(** The first lines of [handleEvent]: the mapping in force, the labels of
    the rule and whether a rule matched. *)
Definition mappingOf (event : Event) : MetricMapping * Labels * bool :=
  let '(mapping, labels, present) :=
    GetMapping mapper (MetricName event) (EventMetricType event) in
  let mapping :=
    match mapping with
    | Some m => m
    | None =>
        if DefaultTtl (Defaults mapper) =? 0 then emptyMapping
        else withTtl emptyMapping (DefaultTtl (Defaults mapper))
    end in
  (mapping, labels, present).

Definition helpOf (mapping : MetricMapping) : string :=
  if String.eqb (HelpText mapping) "" then defaultHelp else HelpText mapping.

(** The update of one family on a successful or failed [Get]: the same five
    lines in each branch of the switch. *)
Definition observe {O} (type : string) (op : Op) (now : Z)
    (metricName : string) (prometheusLabels : Labels) (ttl : Z)
    (got : gmap string (Vec O) * Registry * option (list string))
    (put : gmap string (Vec O) -> Exporter -> Exporter) (b : Exporter)
    : Exporter :=
  let '(Elements, reg, r) := got in
  match r with
  | Some key =>
      let b := put (alter (childDo op key) metricName Elements) b in
      Inc (eventStats type)
        (mkExporter (Counters b) (Gauges b) (Summaries b) (Histograms b)
           (saveLabelValues now metricName prometheusLabels ttl (labelValues b))
           reg (stats b))
  | None =>
      let b := put Elements b in
      Inc (conflictingEventStats type)
        (mkExporter (Counters b) (Gauges b) (Summaries b) (Histograms b)
           (labelValues b) reg (stats b))
  end.

Definition putCounters (c : gmap string (Vec unit)) (b : Exporter) : Exporter :=
  mkExporter c (Gauges b) (Summaries b) (Histograms b) (labelValues b)
             (registry b) (stats b).
Definition putGauges (g : gmap string (Vec unit)) (b : Exporter) : Exporter :=
  mkExporter (Counters b) g (Summaries b) (Histograms b) (labelValues b)
             (registry b) (stats b).
Definition putSummaries (s : gmap string (Vec Objectives)) (b : Exporter)
    : Exporter :=
  mkExporter (Counters b) (Gauges b) s (Histograms b) (labelValues b)
             (registry b) (stats b).
Definition putHistograms (h : gmap string (Vec (list spec_float)))
    (b : Exporter) : Exporter :=
  mkExporter (Counters b) (Gauges b) (Summaries b) h (labelValues b)
             (registry b) (stats b).

(** [handleEvent]; [None] is the panic of [escapeMetricName] on an empty
    name.  The code overlays the labels of the rule on the label map of the
    event in place; the overlay is a map of its own here, which is the same
    as long as one rule set is in force while the events of a sample are
    handled.  The [default] branch of the switch on the timer type is out of
    reach of the three values of [TimerType]. *)
Definition handleEvent (now : Z) (event : Event) (b : Exporter)
    : option Exporter :=
  let '(mapping, labels, present) := mappingOf event in
  match Action mapping with
  | ActionTypeDrop => Some b
  | _ =>
      let help := helpOf mapping in
      '(metricName, prometheusLabels, b) ←
        (if present then
           metricName ← escapeMetricName (Name mapping);
           Some (metricName, labels ∪ EventLabels event, b)
         else
           metricName ← escapeMetricName (MetricName event);
           Some (metricName, EventLabels event, Inc eventsUnmapped b));
      match event with
      | CounterEvent _ _ _ =>
          if float64.ltb (Value event) float64.zero then
            Some (Inc (eventStats "illegal_negative_counter") b)
          else
            Some (observe "counter" (OpAdd (Value event)) now metricName
                    prometheusLabels (Ttl mapping)
                    (CounterContainer_Get metricName prometheusLabels help
                       (Counters b) (registry b))
                    putCounters b)
      | GaugeEvent _ _ relative _ =>
          Some (observe "gauge"
                  (if relative then OpAdd (Value event) else OpSet (Value event))
                  now metricName prometheusLabels (Ttl mapping)
                  (GaugeContainer_Get metricName prometheusLabels help
                     (Gauges b) (registry b))
                  putGauges b)
      | TimerEvent _ _ _ =>
          let t := MappingTimerType mapping in
          let t :=
            match t with
            | TimerTypeDefault => DefaultTimerType (Defaults mapper)
            | _ => t
            end in
          let seconds := float64.div (Value event) (float64.of_Z 1000) in
          match t with
          | TimerTypeHistogram =>
              Some (observe "timer" (OpObserve seconds) now metricName
                      prometheusLabels (Ttl mapping)
                      (HistogramContainer_Get metricName prometheusLabels help
                         mapping (Histograms b) (registry b))
                      putHistograms b)
          | TimerTypeDefault | TimerTypeSummary =>
              Some (observe "timer" (OpObserve seconds) now metricName
                      prometheusLabels (Ttl mapping)
                      (SummaryContainer_Get metricName prometheusLabels help
                         mapping (Summaries b) (registry b))
                      putSummaries b)
          end
      end
  end.

(** The body of the loops of [removeStaleMetrics] for one record. *)
Definition removeIfStale (now : Z) (metricName : string) (hash : Z)
    (lvs : LabelValues) (b : Exporter) : Exporter :=
  if ttl lvs =? 0 then b
  else if time.Before (time.Add (lastRegisteredAt lvs) (ttl lvs)) now then
    mkExporter
      (containerDelete validValue metricName (lvLabels lvs) (Counters b))
      (containerDelete validValue metricName (lvLabels lvs) (Gauges b))
      (containerDelete validValue metricName (lvLabels lvs) (Summaries b))
      (containerDelete validValue metricName (lvLabels lvs) (Histograms b))
      (alter (delete hash) metricName (labelValues b))
      (registry b) (stats b)
  else b.

(** [removeStaleMetrics]: the two nested [range] loops.  The order in which
    Go visits a map is not specified; [map_fold] visits the keys in the order
    of [map_to_list].  A turn deletes at most the record it visits, so the
    records visited are those present when the loops start. *)
Definition removeStaleMetrics (now : Z) (b : Exporter) : Exporter :=
  map_fold
    (fun metricName records b =>
       map_fold (fun hash lvs b => removeIfStale now metricName hash lvs b)
                b records)
    b (labelValues b).

End ExporterOps.

(** The two bytes C3 A9 (U+00E9) on their own. *)
Definition e_acute : string := String (chr 0xC3) (String (chr 0xA9) EmptyString).

(** What a line and a packet contribute to the batch. *)
Definition eventsOfLine (ParseFloat : string -> spec_float * bool)
    (line : string) : option Events :=
  fst <$> lineToEvents ParseFloat line.

Definition eventsOfPacket (ParseFloat : string -> spec_float * bool)
    (packet : string) : option Events :=
  fst <$> handlePacket ParseFloat packet.

(** What the lines contribute one by one, put together in the order of the
    lines; [None] as soon as one of them panics. *)
Definition eventsOfLines (ParseFloat : string -> spec_float * bool)
    (lines : list string) : option Events :=
  @concat Event <$> mapM (eventsOfLine ParseFloat) lines.

(** A packet of two lines: a counter sample, then a line whose name is the
    byte FF. *)
Definition packet_bad_second_line : string :=
  "a:1|c" +:+ String newline (String (chr 255) ":1|c").

(** The floor of the real number 1/f for a finite [f > 0], [f] being
    [m * 2^e]: what "floor(1/f)" is when the division is exact. *)
Definition floor_reciprocal (f : spec_float) : option Z :=
  match f with
  | S754_finite false m e =>
      Some (if e <? 0 then 2 ^ (- e) / Zpos m else 1 / (Zpos m * 2 ^ e))
  | _ => None
  end.

(** The sampling factor 5e-20 as a sender writes it. *)
Definition tiny_factor : string := "0.00000000000000000005".

(** Neither a colon nor a pipe occurs in [s]. *)
Definition plain (s : string) : bool := lacksb ":" s && lacksb "|" s.

(** ** Reading the state of the exporter *)

(** The record kept for a metric name and a hash. *)
Definition recordOf (b : Exporter) (metricName : string) (hash : Z)
    : option LabelValues :=
  labelValues b !! metricName ≫= fun records => records !! hash.

(** The calls received by the child of a family, if the family and the child
    exist. *)
Definition childOf {O} (Elements : gmap string (Vec O)) (metricName : string)
    (key : list string) : option (list Op) :=
  Elements !! metricName ≫= fun vec => vecChildren vec !! key.

(** No child of the family [metricName] carries the label values [labels]. *)
Definition childGone {O} (validValue : string -> bool)
    (Elements : gmap string (Vec O)) (metricName : string) (labels : Labels)
    : Prop :=
  forall vec,
    Elements !! metricName = Some vec ->
    labelsFit validValue (vecLabelNames vec) labels = true ->
    vecChildren vec !! childKey (vecLabelNames vec) labels = None.

(** The test of [removeStaleMetrics] on one record. *)
Definition stale (now : Z) (lvs : LabelValues) : bool :=
  negb (ttl lvs =? 0)
  && time.Before (time.Add (lastRegisteredAt lvs) (ttl lvs)) now.

(** Whether [handleEvent] returns at the drop action; the name and the
    labels of the family it goes on with otherwise. *)
Definition dropped (mapper : MetricMapper) (event : Event) : bool :=
  match Action (fst (fst (mappingOf mapper event))) with
  | ActionTypeDrop => true
  | _ => false
  end.

Definition familyName (mapper : MetricMapper) (event : Event) : option string :=
  let '(mapping, _, present) := mappingOf mapper event in
  escapeMetricName (if present then Name mapping else MetricName event).

Definition familyLabels (mapper : MetricMapper) (event : Event) : Labels :=
  let '(_, labels, present) := mappingOf mapper event in
  if present then labels ∪ EventLabels event else EventLabels event.

(** The increment of [eventsUnmapped] for an event without a rule. *)
Definition unmappedLog (mapper : MetricMapper) (event : Event) : list Stat :=
  if snd (mappingOf mapper event) then [] else [eventsUnmapped].

Definition typeName (event : Event) : string :=
  match event with
  | CounterEvent _ _ _ => "counter"
  | GaugeEvent _ _ _ _ => "gauge"
  | TimerEvent _ _ _ => "timer"
  end.

(** The timer family the switch of [handleEvent] selects. *)
Definition timerTypeOf (mapper : MetricMapper) (mapping : MetricMapping)
    : TimerType :=
  match MappingTimerType mapping with
  | TimerTypeDefault => DefaultTimerType (Defaults mapper)
  | t => t
  end.

(** The outcome of the [Get] that [handleEvent] makes for the event: the key
    of the child or [None] for the error. *)
Definition lookupChild (validDesc : string -> list string -> bool)
    (validValue : string -> bool) (mapper : MetricMapper) (event : Event)
    (b : Exporter) : option (list string) :=
  let mapping := fst (fst (mappingOf mapper event)) in
  let help := helpOf mapping in
  let prometheusLabels := familyLabels mapper event in
  metricName ← familyName mapper event;
  match event with
  | CounterEvent _ _ _ =>
      snd (CounterContainer_Get validDesc validValue metricName
             prometheusLabels help (Counters b) (registry b))
  | GaugeEvent _ _ _ _ =>
      snd (GaugeContainer_Get validDesc validValue metricName
             prometheusLabels help (Gauges b) (registry b))
  | TimerEvent _ _ _ =>
      match timerTypeOf mapper mapping with
      | TimerTypeHistogram =>
          snd (HistogramContainer_Get validDesc validValue mapper metricName
                 prometheusLabels help mapping (Histograms b) (registry b))
      | _ =>
          snd (SummaryContainer_Get validDesc validValue mapper metricName
                 prometheusLabels help mapping (Summaries b) (registry b))
      end
  end.

(** ** Instances for the examples *)

(** [NewExporter], with nothing registered yet. *)
Definition NewExporter : Exporter := mkExporter ∅ ∅ ∅ ∅ ∅ ∅ [].

(** A mapper without rules, and one whose only rule drops every metric. *)
Definition noRules : MetricMapper :=
  mkMapper (fun _ _ => (None, ∅, false)) (mkDefaults 0 TimerTypeDefault [] []).

Definition dropAll : MetricMapper :=
  mkMapper
    (fun _ _ => (Some (mkMapping "dropped" ActionTypeDrop "" 0 TimerTypeDefault [] []),
                 ∅, true))
    (mkDefaults 0 TimerTypeDefault [] []).

(** A client library that accepts every descriptor and every label value,
    and a label signature that tells no two label sets apart. *)
Definition anyDesc (name : string) (names : list string) : bool := true.
Definition anyValue (v : string) : bool := true.
Definition noSignature (labels : Labels) : Z := 0.

Definition minus_five : spec_float := float64.of_Z (-5).


(** The counter event that the switch of [handleEvent] turns away before any
    lookup. *)
Definition rejected (event : Event) : bool :=
  match event with
  | CounterEvent _ v _ => float64.ltb v float64.zero
  | _ => false
  end.

(** The records that the loops of [removeStaleMetrics] visit, in the order
    of the visit: metric name, hash, record. *)
Definition recordsList (lv : gmap string (gmap Z LabelValues))
    : list (string * Z * LabelValues) :=
  map_to_list lv ≫= fun '(metricName, records) =>
    (fun '(hash, lvs) => (metricName, hash, lvs)) <$> map_to_list records.

(** What one turn of the inner loop does to one container. *)
Definition deleteIfStale {O} (validValue : string -> bool) (now : Z)
    (t : string * Z * LabelValues) (Elements : gmap string (Vec O))
    : gmap string (Vec O) :=
  if stale now t.2 then containerDelete validValue t.1.1 (lvLabels t.2) Elements
  else Elements.

(** A visited record is stale and names the child [key] of the family
    [metricName] with label names [names]. *)
Definition namesChild (validValue : string -> bool) (now : Z)
    (metricName : string) (names : list string) (key : list string)
    (t : string * Z * LabelValues) : bool :=
  stale now t.2 && bool_decide (t.1.1 = metricName)
  && labelsFit validValue names (lvLabels t.2)
  && bool_decide (childKey names (lvLabels t.2) = key).

(** A visited record is stale and is the record of [metricName] and [hash]. *)
Definition staleAt (now : Z) (metricName : string) (hash : Z)
    (t : string * Z * LabelValues) : bool :=
  stale now t.2 && bool_decide (t.1.1 = metricName /\ t.1.2 = hash).

(** An exporter holding one record whose TTL is negative. *)
Definition negativeTtl : Exporter :=
  mkExporter ∅ ∅ ∅ ∅ {["m" := {[7 := mkLabelValues 100 ∅ (-1)]}]} ∅ [].

(** The exporter after the counter sample [foo:1|c] without labels. *)
Definition afterFoo : Exporter :=
  default NewExporter
    (handleEvent anyDesc anyValue noSignature noRules 100
       (CounterEvent "foo" float64.one ∅) NewExporter).

(** No stale record of [b] names the child [key] of the family [metricName]
    of a container. *)
Definition keptChild {O} (validValue : string -> bool) (now : Z) (b : Exporter)
    (Elements : gmap string (Vec O)) (metricName : string) (key : list string)
    : Prop :=
  forall vec hash lvs,
    Elements !! metricName = Some vec ->
    recordOf b metricName hash = Some lvs ->
    stale now lvs = true ->
    labelsFit validValue (vecLabelNames vec) (lvLabels lvs) = true ->
    childKey (vecLabelNames vec) (lvLabels lvs) <> key.

(** A mapper without rules whose defaults give every series a TTL of ten
    nanoseconds, and the exporter after the counter sample [foo:1|c] handled
    at time 100 under it. *)
Definition shortTtl : MetricMapper :=
  mkMapper (fun _ _ => (None, ∅, false)) (mkDefaults 10 TimerTypeDefault [] []).

Definition expiringFoo : Exporter :=
  default NewExporter
    (handleEvent anyDesc anyValue noSignature shortTtl 100
       (CounterEvent "foo" float64.one ∅) NewExporter).

(** The divisor in force after [if samplingFactor == 0]. *)
Definition effectiveFactor (f : spec_float) : spec_float :=
  if float64.eqb f float64.zero then float64.one else f.

(** One turn of the inner loop of [removeStaleMetrics] on a visited record. *)
Definition visit (validValue : string -> bool) (now : Z)
    (t : string * Z * LabelValues) (b : Exporter) : Exporter :=
  removeIfStale validValue now t.1.1 t.1.2 t.2 b.

(** The loops of [removeStaleMetrics] when the records are visited in the
    order [order], last element first: Go leaves the order in which a map is
    ranged over open. *)
Definition removeStaleMetricsIn (validValue : string -> bool) (now : Z)
    (order : list (string * Z * LabelValues)) (b : Exporter) : Exporter :=
  foldr (visit validValue now) b order.




(** The first step of the sanitizer: an underscore before a leading ASCII
    digit. *)
Definition underscoreBeforeDigit (n : string) : string :=
  match n with
  | String c0 _ => if isDigit c0 then String "_" n else n
  | EmptyString => n
  end.

(** The replacement worded character by character, from the left: a byte
    of the class stays; an ASCII byte outside
    the class becomes one underscore; a well-formed multi-byte UTF-8 sequence
    becomes one underscore as a whole; a byte from 0x80 up that starts no
    well-formed sequence becomes one underscore by itself.  Well-formedness is
    that of [utf8.ValidString]. *)
Inductive replaced_runewise : string -> string -> Prop :=
  | replaced_end : replaced_runewise EmptyString EmptyString
  | replaced_legal (c : ascii) (r r' : string) :
      legalChar c = true ->
      replaced_runewise r r' ->
      replaced_runewise (String c r) (String c r')
  | replaced_ascii (c : ascii) (r r' : string) :
      byte c < utf8.RuneSelf -> legalChar c = false ->
      replaced_runewise r r' ->
      replaced_runewise (String c r) (String "_" r')
  | replaced_sequence (c : ascii) (r r' : string) (size : nat) :
      utf8.RuneSelf <= byte c ->
      utf8.validSize (String c r) = Some size ->
      replaced_runewise (skip size (String c r)) r' ->
      replaced_runewise (String c r) (String "_" r')
  | replaced_stray (c : ascii) (r r' : string) :
      utf8.RuneSelf <= byte c ->
      utf8.validSize (String c r) = None ->
      replaced_runewise r r' ->
      replaced_runewise (String c r) (String "_" r').

(** A packet of three lines: two valid ones and, between them, a line
    whose DogStatsD tag has an empty name. *)
Definition packet_empty_tag_name : string :=
  strings.Join ["a:1|c"; "foo:1|c|#:bar"; "b:2|g"] newline.

(** ** Further readings of the parser *)

(** A name as [escapeMetricName] leaves it: bytes of the class
    [[a-zA-Z0-9_]] only, the first of them no digit. *)
Definition validName (s : string) : bool :=
  match s with
  | EmptyString => false
  | String c _ => negb (isDigit c) && allLegal s
  end.

(** A tag of a DogStatsD component whose name is empty and whose value is
    not: after the optional [#] it starts with a colon and goes on. *)
Definition emptyTagName (t : string) : bool :=
  match strings.TrimPrefix t "#" with
  | String c (String _ _) => Ascii.eqb c ":"
  | _ => false
  end.

(** What stands after the first colon of a tag, if it has a colon. *)
Fixpoint afterColon (s : string) : option string :=
  match s with
  | EmptyString => None
  | String c r => if Ascii.eqb c ":" then Some r else afterColon r
  end.

(** A tag that is malformed or empty: after the optional [#] it has no colon,
    or nothing after its first colon. *)
Definition skippedTag (t : string) : bool :=
  match afterColon (strings.TrimPrefix t "#") with
  | Some (String _ _) => false
  | _ => true
  end.

(** The counters that the handling of one sample moves after
    [samplesReceived]: those of the tags and [sampleErrors] under the five
    reasons of the loop labelled [samples]. *)
Definition sampleStat (s : Stat) : bool :=
  match s with
  | tagsReceived | tagErrors => true
  | sampleErrors reason =>
      existsb (String.eqb reason)
        ["malformed_component"; "malformed_value"; "illegal_sample_factor";
         "invalid_sample_factor"; "illegal_event"]
  | _ => false
  end.

(** The stat type of a sample: [components[1]]. *)
Definition statTypeOf (sample : string) : string :=
  nth 1 (strings.Split sample "|") EmptyString.

(** The samples of the remainder of a line: the remainder itself under the
    DogStatsD extension, its pieces between the colons otherwise. *)
Definition samplesOf (rest : string) : list string :=
  if strings.Contains rest "|#" then [rest] else strings.Split rest ":".

(** The counters that [lineToEvents] moves. *)
Definition lineStat (s : Stat) : bool :=
  sampleStat s || bool_decide (s = samplesReceived)
  || bool_decide (s = sampleErrors "malformed_line").

(** ** Further readings of the exporter *)

(** The record kept under a metric name and a hash in the map
    [labelValues]. *)
Definition recordIn (lv : gmap string (gmap Z LabelValues))
    (metricName : string) (hash : Z) : option LabelValues :=
  lv !! metricName ≫= fun records => records !! hash.

(** The call that a successful [handleEvent] makes on the child. *)
Definition opOf (event : Event) : Op :=
  match event with
  | CounterEvent _ v _ => OpAdd v
  | GaugeEvent _ v relative _ => if relative then OpAdd v else OpSet v
  | TimerEvent _ v _ => OpObserve (float64.div v (float64.of_Z 1000))
  end.

(** The TTL in force for an event: that of the rule that [GetMapping]
    returns for its name and type, and the default TTL of the mapper when
    [GetMapping] returns no rule. *)
Definition ttlInForce (mapper : MetricMapper) (event : Event) : Z :=
  match (GetMapping mapper (MetricName event) (EventMetricType event)).1.1 with
  | Some rule => Ttl rule
  | None => DefaultTtl (Defaults mapper)
  end.

(** * Properties *)

(** ** Bytes, strings and splitting *)


Lemma skip_length (k : nat) (s : string) :
  (String.length (skip k s) <= String.length s)%nat.
Proof.
  revert s. induction k as [|k IH]; intros [|c r]; simpl; try lia.
  specialize (IH r). lia.
Qed.

Lemma validSize_positive (s : string) (size : nat) :
  utf8.validSize s = Some size -> (1 <= size)%nat.
Proof.
  unfold utf8.validSize. destruct s as [|si r]; [discriminate|].
  repeat match goal with
         | |- context [if ?b then _ else _] => destruct b
         end; intros [= <-]; lia.
Qed.

Lemma DecodeRuneInString_width_positive (c : ascii) (r : string) :
  (1 <= utf8.DecodeRuneInString_width (String c r))%nat.
Proof.
  unfold utf8.DecodeRuneInString_width.
  repeat match goal with
         | |- context [if ?b then _ else _] => destruct b
         end; lia.
Qed.

(** The loops over a string advance by at least one byte a turn: with
    [len(s)] turns or more they come to the end of the string, and what they
    return does not depend on the number of turns. *)
Lemma ValidString_loop_turns (n : nat) :
  forall m s, (String.length s <= n)%nat -> (String.length s <= m)%nat ->
              utf8.ValidString_loop n s = utf8.ValidString_loop m s.
Proof.
  induction n as [|n IH]; intros m [|c r] Hn Hm;
    cbn [String.length] in *; try lia; try (destruct m; reflexivity).
  destruct m as [|m]; [lia|]. cbn [utf8.ValidString_loop].
  destruct (byte c <? utf8.RuneSelf); [apply IH; lia|].
  destruct (utf8.validSize (String c r)) as [size|] eqn:Hsize; [|reflexivity].
  apply validSize_positive in Hsize. destruct size as [|size]; [lia|].
  cbn [skip]. pose proof (skip_length size r). apply IH; lia.
Qed.

Lemma ReplaceAllIllegal_turns (n : nat) :
  forall m s, (String.length s <= n)%nat -> (String.length s <= m)%nat ->
              ReplaceAllIllegal n s = ReplaceAllIllegal m s.
Proof.
  induction n as [|n IH]; intros m [|c r] Hn Hm;
    cbn [String.length] in *; try lia; try (destruct m; reflexivity).
  destruct m as [|m]; [lia|]. cbn [ReplaceAllIllegal].
  destruct (byte c <? utf8.RuneSelf); [f_equal; apply IH; lia|].
  pose proof (DecodeRuneInString_width_positive c r) as Hw.
  destruct (utf8.DecodeRuneInString_width (String c r)) as [|w]; [lia|].
  cbn [skip]. pose proof (skip_length w r). f_equal. apply IH; lia.
Qed.

Lemma legalChar_ascii (c : ascii) : legalChar c = true -> byte c < 0x80.
Proof.
  unfold legalChar, isDigit. intros H.
  repeat (apply orb_prop in H; destruct H as [H|H]).
  - apply andb_prop in H as [_ H]. apply Z.leb_le in H.
    change (byte "z") with 122 in H. lia.
  - apply andb_prop in H as [_ H]. apply Z.leb_le in H.
    change (byte "Z") with 90 in H. lia.
  - apply andb_prop in H as [_ H]. apply Z.leb_le in H.
    change (byte "9") with 57 in H. lia.
  - apply Ascii.eqb_eq in H. subst c. reflexivity.
Qed.

Lemma ReplaceAllIllegal_legal (n : nat) :
  forall s, allLegal (ReplaceAllIllegal n s) = true.
Proof.
  induction n as [|n IH]; intros [|c r]; simpl; try reflexivity.
  destruct (byte c <? utf8.RuneSelf); simpl.
  - rewrite IH, andb_true_r. destruct (legalChar c) eqn:E; [exact E | reflexivity].
  - apply IH.
Qed.

Lemma ReplaceAllIllegal_id (s : string) :
  forall n, allLegal s = true -> (String.length s <= n)%nat ->
            ReplaceAllIllegal n s = s.
Proof.
  induction s as [|c r IH]; intros [|n] Hl Hn; simpl in *; try reflexivity; try lia.
  apply andb_prop in Hl as [Hc Hr].
  pose proof (legalChar_ascii c Hc) as Hlt. apply Z.ltb_lt in Hlt.
  unfold utf8.RuneSelf. rewrite Hlt, Hc. f_equal. apply IH; [exact Hr | lia].
Qed.

Lemma ReplaceAllIllegal_ascii (s : string) :
  forall n, allASCII s = true -> (String.length s <= n)%nat ->
            ReplaceAllIllegal n s = replace_every_byte s.
Proof.
  induction s as [|c r IH]; intros [|n] Ha Hn; simpl in *; try reflexivity; try lia.
  apply andb_prop in Ha as [Hc Hr]. rewrite Hc. f_equal. apply IH; [exact Hr | lia].
Qed.


(** The first byte of a sanitized name is no digit. *)
Lemma ReplaceAllIllegal_head (c : ascii) (r : string) (n : nat) :
  isDigit c = false ->
  match ReplaceAllIllegal (S n) (String c r) with
  | String c' _ => isDigit c' = false
  | EmptyString => False
  end.
Proof.
  intros Hd. simpl. destruct (byte c <? utf8.RuneSelf).
  - destruct (legalChar c); [exact Hd | reflexivity].
  - reflexivity.
Qed.

Lemma escapeMetricName_fixed (r : string) :
  allLegal r = true ->
  match r with String c _ => isDigit c = false | EmptyString => False end ->
  escapeMetricName r = Some r.
Proof.
  destruct r as [|c r]; intros Hl Hd; [contradiction|].
  unfold escapeMetricName. rewrite Hd. f_equal.
  apply ReplaceAllIllegal_id; [exact Hl | lia].
Qed.

Lemma lacksb_lacks (c : ascii) (s : string) : lacksb c s = true <-> lacks c s.
Proof.
  induction s as [|a r IH]; simpl; [tauto|].
  rewrite andb_true_iff, negb_true_iff, IH.
  split; intros [H1 H2]; split; auto.
  - intros ->. rewrite Ascii.eqb_refl in H1. discriminate.
  - apply Ascii.eqb_neq. exact H1.
Qed.

Lemma lacks_app (c : ascii) (a b : string) :
  lacks c (a +:+ b) <-> lacks c a /\ lacks c b.
Proof. induction a as [|x a IH]; simpl; tauto. Qed.

Lemma Split_nonempty (s : string) (sep : ascii) : strings.Split s sep <> [].
Proof.
  destruct s as [|c r]; simpl; [discriminate|].
  destruct (Ascii.eqb c sep); [discriminate|].
  destruct (strings.Split r sep); discriminate.
Qed.

Lemma Split_lacks (s : string) (sep : ascii) :
  lacks sep s -> strings.Split s sep = [s].
Proof.
  induction s as [|c r IH]; simpl; [reflexivity|]. intros [Hc Hr].
  apply Ascii.eqb_neq in Hc. rewrite Hc, (IH Hr). reflexivity.
Qed.

Lemma Split_app (a b : string) (sep : ascii) :
  lacks sep a ->
  strings.Split (a +:+ String sep b) sep = a :: strings.Split b sep.
Proof.
  induction a as [|c r IH]; simpl.
  - intros _. rewrite Ascii.eqb_refl. reflexivity.
  - intros [Hc Hr]. apply Ascii.eqb_neq in Hc. rewrite Hc, (IH Hr). reflexivity.
Qed.

Lemma SplitN2_lacks (s : string) (sep : ascii) :
  lacks sep s -> strings.SplitN2 s sep = [s].
Proof.
  induction s as [|c r IH]; simpl; [reflexivity|]. intros [Hc Hr].
  apply Ascii.eqb_neq in Hc. rewrite Hc, (IH Hr). reflexivity.
Qed.

Lemma SplitN2_app (a b : string) (sep : ascii) :
  lacks sep a -> strings.SplitN2 (a +:+ String sep b) sep = [a; b].
Proof.
  induction a as [|c r IH]; simpl.
  - intros _. rewrite Ascii.eqb_refl. reflexivity.
  - intros [Hc Hr]. apply Ascii.eqb_neq in Hc. rewrite Hc, (IH Hr). reflexivity.
Qed.

Lemma Split_Join (elems : list string) (sep : ascii) :
  Forall (lacks sep) elems -> elems <> [] ->
  strings.Split (strings.Join elems sep) sep = elems.
Proof.
  induction elems as [|a rest IH]; intros Hall Hne; [congruence|].
  inversion Hall as [|? ? Ha Hrest]; subst.
  destruct rest as [|b rest].
  - simpl. apply Split_lacks. exact Ha.
  - change (strings.Join (a :: b :: rest) sep)
      with (a +:+ String sep (strings.Join (b :: rest) sep)).
    rewrite Split_app by exact Ha. f_equal. apply IH; [exact Hrest | discriminate].
Qed.



Lemma Join_Split (s : string) (sep : ascii) :
  strings.Join (strings.Split s sep) sep = s.
Proof.
  induction s as [|c r IH]; [reflexivity|]. simpl.
  pose proof (Split_nonempty r sep) as Hne.
  destruct (Ascii.eqb c sep) eqn:Hc.
  - apply Ascii.eqb_eq in Hc. subst c.
    destruct (strings.Split r sep) as [|h t]; [congruence|].
    change (strings.Join ("" :: h :: t) sep)
      with (String sep (strings.Join (h :: t) sep)).
    rewrite IH. reflexivity.
  - destruct (strings.Split r sep) as [|h [|h' t]]; [congruence| |].
    + simpl in *. rewrite IH. reflexivity.
    + change (strings.Join (String c h :: h' :: t) sep)
        with (String c (h +:+ String sep (strings.Join (h' :: t) sep))).
      change (strings.Join (h :: h' :: t) sep)
        with (h +:+ String sep (strings.Join (h' :: t) sep)) in IH.
      rewrite IH. reflexivity.
Qed.

Lemma Contains_here (r sub : string) :
  strings.HasPrefix r sub = true -> strings.Contains r sub = true.
Proof. intros H. destruct r; simpl; rewrite H; reflexivity. Qed.



(** ** Well-formed UTF-8 and concatenation *)

Lemma length_append (a b : string) :
  String.length (a +:+ b) = (String.length a + String.length b)%nat.
Proof. induction a as [|c a IH]; simpl; [reflexivity | rewrite IH; reflexivity]. Qed.

Lemma at_app (i : nat) (a b : string) (c : ascii) :
  at_ i a = Some c -> at_ i (a +:+ b) = Some c /\ (i < String.length a)%nat.
Proof.
  revert i. induction a as [|x a IH]; intros i; simpl.
  - destruct i; discriminate.
  - destruct i as [|i]; [intros [= <-]; split; [reflexivity | lia]|].
    intros H. destruct (IH i H) as [Heq Hlt]. split; [exact Heq | lia].
Qed.

Lemma inRange_app (lohi : Z * Z) (i : nat) (a b : string) :
  utf8.inRange lohi (at_ i a) = true ->
  utf8.inRange lohi (at_ i (a +:+ b)) = true /\ (i < String.length a)%nat.
Proof.
  destruct (at_ i a) as [c|] eqn:Hc; [|discriminate]. intros Hr.
  destruct (at_app i a b c Hc) as [-> Hlt]. split; assumption.
Qed.

Lemma skip_app (n : nat) (a b : string) :
  (n <= String.length a)%nat -> skip n (a +:+ b) = skip n a +:+ b.
Proof.
  revert a. induction n as [|n IH]; intros [|c a] Hn; simpl in *;
    try reflexivity; try lia.
  apply IH. lia.
Qed.

(** The encoding that starts a string starts every extension of it. *)
Lemma validSize_app (a b : string) (size : nat) :
  utf8.validSize a = Some size ->
  utf8.validSize (a +:+ b) = Some size /\ (size <= String.length a)%nat.
Proof.
  destruct a as [|si r]; [discriminate|].
  change (String si r +:+ b) with (String si (r +:+ b)).
  unfold utf8.validSize.
  destruct (utf8.first (byte si) =? utf8.xx); [discriminate|].
  destruct (len (String si r) <? Z.land (utf8.first (byte si)) 7) eqn:Hlen;
    [discriminate|].
  assert (Hlen' : (len (String si (r +:+ b))
                   <? Z.land (utf8.first (byte si)) 7) = false).
  { apply Z.ltb_ge. apply Z.ltb_ge in Hlen. unfold len in *.
    change (String si (r +:+ b)) with (String si r +:+ b).
    rewrite length_append. lia. }
  rewrite Hlen'.
  change (String si (r +:+ b)) with (String si r +:+ b).
  destruct (utf8.inRange _ (at_ 1 (String si r))) eqn:H1; [|discriminate].
  destruct (inRange_app _ 1 (String si r) b H1) as [-> Hl1]. cbn [negb].
  destruct (Z.land (utf8.first (byte si)) 7 =? 2);
    [intros [= <-]; split; [reflexivity | lia]|].
  destruct (utf8.inRange _ (at_ 2 (String si r))) eqn:H2; [|discriminate].
  destruct (inRange_app _ 2 (String si r) b H2) as [-> Hl2]. cbn [negb].
  destruct (Z.land (utf8.first (byte si)) 7 =? 3);
    [intros [= <-]; split; [reflexivity | lia]|].
  destruct (utf8.inRange _ (at_ 3 (String si r))) eqn:H3; [|discriminate].
  destruct (inRange_app _ 3 (String si r) b H3) as [-> Hl3]. cbn [negb].
  intros [= <-]; split; [reflexivity | lia].
Qed.

Lemma ValidString_loop_app (n : nat) :
  forall a b k,
    (String.length a <= n)%nat -> (String.length b <= k)%nat ->
    utf8.ValidString_loop n a = true ->
    utf8.ValidString_loop (n + k) (a +:+ b) = utf8.ValidString_loop k b.
Proof.
  induction n as [|n IH]; intros [|c r] b k Hn Hk Hv;
    cbn [String.length] in *; try lia.
  - apply ValidString_loop_turns; simpl; lia.
  - apply ValidString_loop_turns; simpl; lia.
  - change (String c r +:+ b) with (String c (r +:+ b)).
    cbn [utf8.ValidString_loop Nat.add] in *.
    destruct (byte c <? utf8.RuneSelf); [apply IH; [lia | lia | exact Hv]|].
    change (String c (r +:+ b)) with (String c r +:+ b).
    destruct (utf8.validSize (String c r)) as [size|] eqn:Hsize; [|discriminate].
    destruct (validSize_app _ b _ Hsize) as [-> Hle].
    rewrite skip_app by exact Hle.
    pose proof (validSize_positive _ _ Hsize) as Hpos.
    apply IH; [|lia|exact Hv].
    destruct size as [|size]; [lia|]. cbn [skip].
    pose proof (skip_length size r). lia.
Qed.

(** After a well-formed prefix, validity is that of the rest. *)
Lemma ValidString_app (a b : string) :
  utf8.ValidString a = true ->
  utf8.ValidString (a +:+ b) = utf8.ValidString b.
Proof.
  unfold utf8.ValidString. intros Ha. rewrite length_append.
  apply ValidString_loop_app; [lia | lia | exact Ha].
Qed.

Lemma ValidString_Join (lines : list string) :
  forallb utf8.ValidString lines = true ->
  utf8.ValidString (strings.Join lines newline) = true.
Proof.
  induction lines as [|a rest IH]; [reflexivity|]. intros Hall.
  cbn [forallb] in Hall. apply andb_prop in Hall as [Ha Hrest].
  destruct rest as [|b rest]; [exact Ha|].
  change (strings.Join (a :: b :: rest) newline)
    with (a +:+ String newline (strings.Join (b :: rest) newline)).
  rewrite ValidString_app by exact Ha.
  specialize (IH Hrest). unfold utf8.ValidString in *.
  cbn [String.length utf8.ValidString_loop].
  change (byte newline <? utf8.RuneSelf) with true. exact IH.
Qed.

(** A string that is not valid UTF-8 has a line that is not. *)
Lemma invalid_line_of_packet (packet : string) :
  utf8.ValidString packet = false ->
  exists line,
    In line (strings.Split packet newline) /\ utf8.ValidString line = false.
Proof.
  intros Hinv.
  destruct (forallb utf8.ValidString (strings.Split packet newline)) eqn:Hall.
  - apply ValidString_Join in Hall. rewrite Join_Split in Hall. congruence.
  - clear Hinv. induction (strings.Split packet newline) as [|l rest IH];
      [discriminate|].
    cbn [forallb] in Hall. destruct (utf8.ValidString l) eqn:Hl.
    + destruct (IH Hall) as (line & Hin & Hline).
      exists line. split; [right; exact Hin | exact Hline].
    + exists l. split; [left; reflexivity | exact Hl].
Qed.

(** ** The name sanitizer *)

(** The width that the regular expression gives a character from 0x80 up is
    the size of the well-formed sequence that starts there, and one where
    none does. *)
Lemma DecodeRuneInString_width_validSize (c : ascii) (r : string) :
  utf8.RuneSelf <= byte c ->
  utf8.DecodeRuneInString_width (String c r)
  = match utf8.validSize (String c r) with
    | Some size => size
    | None => 1%nat
    end.
Proof.
  intros Hc. unfold utf8.DecodeRuneInString_width, utf8.validSize.
  set (x := utf8.first (byte c)).
  assert (Hx : ((utf8.as_ <=? x) = true /\ (x =? utf8.xx) = true)
               \/ ((utf8.as_ <=? x) = false /\ (x =? utf8.xx) = false
                   /\ (Z.land x 7 = 2 \/ Z.land x 7 = 3 \/ Z.land x 7 = 4))).
  { subst x. unfold utf8.first, utf8.RuneSelf in *.
    destruct (byte c <? 128) eqn:E; [apply Z.ltb_lt in E; lia|].
    repeat match goal with
           | |- context [if ?b then _ else _] => destruct b
           end;
      first [left; split; reflexivity
            | right; split; [reflexivity|]; split; [reflexivity|];
              first [left; reflexivity | right; left; reflexivity
                    | right; right; reflexivity]]. }
  destruct Hx as [[H1 H2] | (H1 & H2 & Hsz)]; rewrite H1, H2; [reflexivity|].
  set (accept := utf8.acceptRanges (Z.shiftr x 4)).
  destruct Hsz as [Hsz | [Hsz | Hsz]]; rewrite Hsz;
    change (2 =? 2) with true; change (3 =? 2) with false;
    change (4 =? 2) with false; change (3 =? 3) with true;
    change (4 =? 3) with false; change (2 <=? 2) with true;
    change (3 <=? 2) with false; change (4 <=? 2) with false;
    change (3 <=? 3) with true; change (4 <=? 3) with false; cbv iota;
    repeat match goal with
           | |- context [if ?b then _ else _] => destruct b
           end; reflexivity.
Qed.

(** The loop of [ReplaceAllString] replaces as [replaced_runewise] says. *)
Lemma ReplaceAllIllegal_runewise (n : nat) :
  forall s, (String.length s <= n)%nat ->
            replaced_runewise s (ReplaceAllIllegal n s).
Proof.
  induction n as [|n IH]; intros [|c r] Hn; cbn [String.length] in Hn;
    try lia; try apply replaced_end.
  cbn [ReplaceAllIllegal].
  destruct (byte c <? utf8.RuneSelf) eqn:Hc.
  - apply Z.ltb_lt in Hc. destruct (legalChar c) eqn:Hl.
    + apply replaced_legal; [exact Hl | apply IH; lia].
    + apply replaced_ascii; [exact Hc | exact Hl | apply IH; lia].
  - apply Z.ltb_ge in Hc.
    rewrite (DecodeRuneInString_width_validSize c r Hc).
    destruct (utf8.validSize (String c r)) as [size|] eqn:Hsize.
    + apply (replaced_sequence c r _ size Hc Hsize). apply IH.
      apply validSize_positive in Hsize. destruct size as [|size]; [lia|].
      cbn [skip]. pose proof (skip_length size r). lia.
    + apply replaced_stray; [exact Hc | exact Hsize | apply IH; cbn [skip]; lia].
Qed.

(** [replaced_runewise] leaves one result only. *)
Lemma replaced_runewise_functional (s r1 : string) :
  replaced_runewise s r1 -> forall r2, replaced_runewise s r2 -> r1 = r2.
Proof.
  induction 1 as [|c r r' Hl _ IH|c r r' Ha Hl _ IH|c r r' size Hc Hsize _ IH
                  |c r r' Hc Hsize _ IH];
    intros r2 H2; inversion H2; subst; try reflexivity;
    try (f_equal; apply IH; assumption);
    try congruence;
    try (pose proof (legalChar_ascii _ ltac:(eassumption)); unfold utf8.RuneSelf in *; lia);
    try (unfold utf8.RuneSelf in *; lia).
  f_equal. apply IH.
  match goal with
  | H1 : utf8.validSize _ = Some ?a, H2 : utf8.validSize _ = Some ?b |- _ =>
      rewrite H1 in H2; injection H2 as <-
  end.
  assumption.
Qed.

(** C9 (as the code has it): on every non-empty input [escapeMetricName]
    returns a name [r] on which it is the identity, so applying the sanitizer
    twice gives what applying it once gives.  One application puts an
    underscore before a leading ASCII digit and then replaces character by
    character: [r] is the one string that [replaced_runewise] relates to the
    input so prefixed, with one underscore for each ASCII byte outside the
    class, for each well-formed multi-byte sequence as a whole and for each
    byte that belongs to no such sequence.  So [r] has bytes of
    [[A-Za-z0-9_]] only, and on an input of ASCII bytes [r] is what the
    byte-by-byte description gives. *)
Theorem escapeMetricName_idempotent (n : string) :
  n <> EmptyString ->
  exists r,
    escapeMetricName n = Some r
    /\ escapeMetricName r = Some r
    /\ allLegal r = true
    /\ (allASCII n = true -> r = sanitize_bytewise n)
    /\ replaced_runewise (underscoreBeforeDigit n) r
    /\ (forall r', replaced_runewise (underscoreBeforeDigit n) r' -> r' = r).
Proof.
  destruct n as [|c0 rest]; [congruence|]. intros _.
  eexists. split; [reflexivity|].
  assert (Hhead :
    match (if isDigit c0 then String "_" (String c0 rest) else String c0 rest) with
    | String c _ => isDigit c = false
    | EmptyString => False
    end).
  { destruct (isDigit c0) eqn:E; [reflexivity | exact E]. }
  assert (Hrun : replaced_runewise (underscoreBeforeDigit (String c0 rest))
                   (ReplaceAllIllegal
                      (String.length
                         (if isDigit c0 then String "_" (String c0 rest)
                          else String c0 rest))
                      (if isDigit c0 then String "_" (String c0 rest)
                       else String c0 rest))).
  { cbn [underscoreBeforeDigit]. apply ReplaceAllIllegal_runewise. lia. }
  split; [|split; [|split; [|split]]].
  - apply escapeMetricName_fixed; [apply ReplaceAllIllegal_legal|].
    destruct (isDigit c0) eqn:E.
    + apply (ReplaceAllIllegal_head "_" (String c0 rest)). reflexivity.
    + apply (ReplaceAllIllegal_head c0 rest). exact E.
  - apply ReplaceAllIllegal_legal.
  - intros Ha. unfold sanitize_bytewise.
    apply ReplaceAllIllegal_ascii; [|lia].
    destruct (isDigit c0); [|exact Ha]. simpl. simpl in Ha. exact Ha.
  - exact Hrun.
  - intros r' Hr'. exact (replaced_runewise_functional _ _ Hr' _ Hrun).
Qed.

Lemma escapeMetricName_idempotent_witness :
  exists r,
    escapeMetricName (String "9" (e_acute +:+ "-b")) = Some r
    /\ escapeMetricName r = Some r
    /\ allLegal r = true
    /\ (allASCII (String "9" (e_acute +:+ "-b")) = true ->
        r = sanitize_bytewise (String "9" (e_acute +:+ "-b")))
    /\ replaced_runewise (underscoreBeforeDigit (String "9" (e_acute +:+ "-b"))) r
    /\ (forall r',
          replaced_runewise (underscoreBeforeDigit (String "9" (e_acute +:+ "-b"))) r' ->
          r' = r).
Proof.
  apply (escapeMetricName_idempotent (String "9" (e_acute +:+ "-b"))). discriminate.
Defined.

(** The name [9] then U+00E9 then [-b] becomes [_9__b]: one underscore in
    front, one for the two bytes of U+00E9, one for the hyphen. *)
Example escapeMetricName_runes :
  escapeMetricName (String "9" (e_acute +:+ "-b")) = Some "_9__b"
  /\ replaced_runewise (underscoreBeforeDigit (String "9" (e_acute +:+ "-b")))
       "_9__b".
Proof.
  split; [vm_compute; reflexivity|].
  apply replaced_legal; [reflexivity|]. apply replaced_legal; [reflexivity|].
  apply (replaced_sequence _ _ _ 2%nat); [vm_compute; discriminate | reflexivity|].
  apply replaced_ascii; [reflexivity | reflexivity|].
  apply replaced_legal; [reflexivity|]. apply replaced_end.
Qed.

(** C9 (as the specification words it) fails on a name that is not ASCII:
    the two bytes of U+00E9 are one rune for the regular expression and
    become one underscore, not one underscore per byte. *)
Lemma escapeMetricName_not_bytewise :
  escapeMetricName e_acute = Some "_"
  /\ sanitize_bytewise e_acute = "__"
  /\ escapeMetricName e_acute <> Some (sanitize_bytewise e_acute).
Proof.
  repeat split; try reflexivity. vm_compute. discriminate.
Qed.

(** ** The parser: total cases *)

Lemma Split_trailing (s : string) (sep : ascii) :
  strings.Split (s +:+ String sep "") sep = strings.Split s sep ++ [""].
Proof.
  induction s as [|c r IH]; simpl.
  - rewrite Ascii.eqb_refl. reflexivity.
  - destruct (Ascii.eqb c sep); rewrite IH; [reflexivity|].
    pose proof (Split_nonempty r sep) as Hne.
    destruct (strings.Split r sep); [congruence | reflexivity].
Qed.

Lemma linesLoop_trailing_empty (ParseFloat : string -> spec_float * bool)
    (lines : list string) :
  linesLoop ParseFloat (lines ++ [""])
  = (fun '(events, log) => (events, log ++ [linesReceived]))
      <$> linesLoop ParseFloat lines.
Proof.
  induction lines as [|l rest IH]; [reflexivity|].
  cbn [app linesLoop]. rewrite IH.
  destruct (lineToEvents ParseFloat l) as [[evs log]|]; [|reflexivity].
  destruct (linesLoop ParseFloat rest) as [[evs' log']|]; [|reflexivity].
  simpl. rewrite <- app_assoc. reflexivity.
Qed.

(** C10: the empty line gives no event and increments no counter.  So the
    empty last line of a packet that ends in a newline adds nothing to what
    the packet gives without that newline, but one [linesReceived]. *)
Theorem lineToEvents_empty (ParseFloat : string -> spec_float * bool) :
  lineToEvents ParseFloat "" = Some ([], [])
  /\ forall packet,
       handlePacket ParseFloat (packet +:+ String newline "")
       = (fun '(events, log) => (events, log ++ [linesReceived]))
           <$> handlePacket ParseFloat packet.
Proof.
  split; [reflexivity|]. intros packet. unfold handlePacket.
  rewrite Split_trailing, linesLoop_trailing_empty.
  destruct (linesLoop ParseFloat (strings.Split packet newline)) as [[evs log]|];
    reflexivity.
Qed.

(** ** Lines of a packet *)

Lemma linesLoop_events (ParseFloat : string -> spec_float * bool)
    (lines : list string) :
  fst <$> linesLoop ParseFloat lines
  = eventsOfLines ParseFloat lines.
Proof.
  unfold eventsOfLines.
  induction lines as [|l rest IH]; [reflexivity|].
  cbn [linesLoop mapM].
  replace (eventsOfLine ParseFloat l) with (fst <$> lineToEvents ParseFloat l)
    by reflexivity.
  destruct (lineToEvents ParseFloat l) as [[evs log]|]; simpl; [|reflexivity].
  revert IH. destruct (linesLoop ParseFloat rest) as [[evs' log']|]; simpl;
    destruct (mapM (eventsOfLine ParseFloat) rest) as [k|]; simpl;
    intros IH; try discriminate IH; [|reflexivity].
  injection IH as ->. reflexivity.
Qed.

Lemma handlePacket_events (ParseFloat : string -> spec_float * bool)
    (packet : string) :
  eventsOfPacket ParseFloat packet
  = fst <$> linesLoop ParseFloat (strings.Split packet newline).
Proof.
  unfold eventsOfPacket, handlePacket.
  destruct (linesLoop ParseFloat (strings.Split packet newline)) as [[evs log]|];
    reflexivity.
Qed.

Lemma eventsOfPacket_Join (ParseFloat : string -> spec_float * bool)
    (lines : list string) :
  forallb (lacksb newline) lines = true ->
  eventsOfPacket ParseFloat (strings.Join lines newline)
  = eventsOfLines ParseFloat lines.
Proof.
  intros Hall. rewrite handlePacket_events.
  destruct lines as [|l rest]; [reflexivity|].
  rewrite Split_Join; [apply linesLoop_events| |discriminate].
  apply Forall_forall. intros x Hx. apply lacksb_lacks.
  rewrite forallb_forall in Hall. apply Hall, list_elem_of_In, Hx.
Qed.

Lemma mapM_skip_silent (ParseFloat : string -> spec_float * bool)
    (before after : list string) (m : string) :
  eventsOfLine ParseFloat m = Some [] ->
  eventsOfLines ParseFloat (before ++ m :: after)
  = eventsOfLines ParseFloat (before ++ after).
Proof.
  intros Hm. unfold eventsOfLines.
  induction before as [|l rest IH]; cbn [app mapM].
  - rewrite Hm. simpl.
    destruct (mapM (eventsOfLine ParseFloat) after); reflexivity.
  - destruct (eventsOfLine ParseFloat l) as [evs|]; simpl; [|reflexivity].
    revert IH.
    destruct (mapM (eventsOfLine ParseFloat) (rest ++ m :: after)) as [k|];
      destruct (mapM (eventsOfLine ParseFloat) (rest ++ after)) as [k'|];
      simpl; intros IH; try discriminate IH; [|reflexivity].
    injection IH as ->. reflexivity.
Qed.

(** The lines of a packet are parsed one by one.  With a line [m] on which
    [lineToEvents] returns, and returns no event, put between the lines
    [before] and [after], the packet emits the events of the other lines, line
    after line in the order of the lines, and so does the packet without [m]:
    the two batches are equal. *)
Theorem handlePacket_line_by_line (ParseFloat : string -> spec_float * bool)
    (before after : list string) (m : string) :
  forallb (lacksb newline) (before ++ m :: after) = true ->
  eventsOfLine ParseFloat m = Some [] ->
  eventsOfPacket ParseFloat (strings.Join (before ++ m :: after) newline)
  = eventsOfLines ParseFloat (before ++ after)
  /\ eventsOfPacket ParseFloat (strings.Join (before ++ after) newline)
     = eventsOfLines ParseFloat (before ++ after).
Proof.
  intros Hall Hm. split.
  - rewrite eventsOfPacket_Join by exact Hall. apply mapM_skip_silent. exact Hm.
  - apply eventsOfPacket_Join.
    rewrite forallb_app in Hall. apply andb_prop in Hall as [Hb Ha].
    simpl in Ha. apply andb_prop in Ha as [_ Ha].
    rewrite forallb_app, Hb, Ha. reflexivity.
Qed.

Lemma handlePacket_line_by_line_witness :
  eventsOfPacket ShortDecimal.ParseFloat
    (strings.Join (["a:1|c"] ++ "junk" :: ["b:2|g"]) newline)
  = eventsOfLines ShortDecimal.ParseFloat (["a:1|c"] ++ ["b:2|g"])
  /\ eventsOfPacket ShortDecimal.ParseFloat
       (strings.Join (["a:1|c"] ++ ["b:2|g"]) newline)
     = eventsOfLines ShortDecimal.ParseFloat (["a:1|c"] ++ ["b:2|g"]).
Proof.
  apply (handlePacket_line_by_line ShortDecimal.ParseFloat ["a:1|c"] ["b:2|g"] "junk").
  - vm_compute. reflexivity.
  - vm_compute. reflexivity.
Defined.

(** C7: the claim fails at the packet [packet_empty_tag_name].  Its middle
    line [foo:1|c|#:bar] is malformed, a tag with an empty name, and on it
    [lineToEvents] panics: [escapeMetricName] takes [metricName[0]] of the
    empty string.  The panic ends [handlePacket] before anything is sent, so
    the events of the two valid lines, which the packet without the middle
    line emits, are lost.  A tag with an empty value, the sibling case, is
    counted in [tagErrors] and skipped, and the line gives its event. *)
Theorem handlePacket_empty_tag_name :
  lineToEvents ShortDecimal.ParseFloat "foo:1|c|#:bar" = None
  /\ handlePacket ShortDecimal.ParseFloat packet_empty_tag_name = None
  /\ eventsOfPacket ShortDecimal.ParseFloat packet_empty_tag_name = None
  /\ eventsOfPacket ShortDecimal.ParseFloat
       (strings.Join ["a:1|c"; "b:2|g"] newline)
     = Some [CounterEvent "a" float64.one ∅;
             GaugeEvent "b" (fst (ShortDecimal.ParseFloat "2")) false ∅]
  /\ lineToEvents ShortDecimal.ParseFloat "foo:1|c|#bar:"
     = Some ([CounterEvent "foo" float64.one ∅],
             [samplesReceived; tagsReceived; tagErrors]).
Proof. repeat split; vm_compute; reflexivity. Qed.

(** ** UTF-8 validity *)

(** C5 (as the code has it): validity is required of each line.  A line that
    is not valid UTF-8 gives no event and one [malformed_line] increment,
    whatever else it holds.  A packet that is not valid UTF-8 as a whole has
    such a line; the lines around it give their events as they do without
    it. *)
Theorem lineToEvents_invalid_utf8 (ParseFloat : string -> spec_float * bool) :
  (forall line,
     utf8.ValidString line = false ->
     lineToEvents ParseFloat line = Some ([], [sampleErrors "malformed_line"]))
  /\ (forall packet,
        utf8.ValidString packet = false ->
        exists line,
          In line (strings.Split packet newline)
          /\ utf8.ValidString line = false)
  /\ (forall before line after,
        utf8.ValidString line = false ->
        forallb (lacksb newline) (before ++ line :: after) = true ->
        eventsOfPacket ParseFloat (strings.Join (before ++ line :: after) newline)
        = eventsOfLines ParseFloat (before ++ after)).
Proof.
  assert (Hline : forall line,
            utf8.ValidString line = false ->
            lineToEvents ParseFloat line
            = Some ([], [sampleErrors "malformed_line"])).
  { intros line Hinv. unfold lineToEvents.
    destruct (String.eqb line "") eqn:Hempty.
    - apply String.eqb_eq in Hempty. subst line. discriminate Hinv.
    - rewrite Hinv.
      destruct (strings.SplitN2 line ":") as [|a [|b [|c l]]]; try reflexivity.
      simpl negb. rewrite orb_true_r. reflexivity. }
  split; [exact Hline|]. split; [exact invalid_line_of_packet|].
  intros before line after Hinv Hall.
  rewrite eventsOfPacket_Join by exact Hall. apply mapM_skip_silent.
  unfold eventsOfLine. rewrite (Hline line Hinv). reflexivity.
Qed.

Lemma lineToEvents_invalid_utf8_witness :
  lineToEvents ShortDecimal.ParseFloat (String (chr 255) ":1|c")
  = Some ([], [sampleErrors "malformed_line"])
  /\ (exists line,
        In line (strings.Split packet_bad_second_line newline)
        /\ utf8.ValidString line = false)
  /\ eventsOfPacket ShortDecimal.ParseFloat
       (strings.Join (["a:1|c"] ++ String (chr 255) ":1|c" :: ["b:2|g"]) newline)
     = eventsOfLines ShortDecimal.ParseFloat (["a:1|c"] ++ ["b:2|g"]).
Proof.
  destruct (lineToEvents_invalid_utf8 ShortDecimal.ParseFloat)
    as (Hline & Hpacket & Haround).
  split; [|split].
  - apply Hline. vm_compute. reflexivity.
  - apply Hpacket. vm_compute. reflexivity.
  - apply Haround; vm_compute; reflexivity.
Defined.

(** C5 (as stated) fails for a packet: the packet below is not valid UTF-8
    as a whole, yet its first line gives a counter event; only the second
    line is counted as malformed. *)
Lemma handlePacket_invalid_utf8_packet :
  utf8.ValidString packet_bad_second_line = false
  /\ handlePacket ShortDecimal.ParseFloat packet_bad_second_line
     = Some ([CounterEvent "a" float64.one ∅],
             [udpPackets; linesReceived; samplesReceived;
              linesReceived; sampleErrors "malformed_line"]).
Proof. split; vm_compute; reflexivity. Qed.

(** ** float64 *)

Lemma div_eucl_exact (a b : Z) : 0 < b -> Z.div_eucl (a * b) b = (a, 0).
Proof.
  intros Hb.
  pose proof (Z.div_mul a b ltac:(lia)) as Hq.
  pose proof (Z.mod_mul a b ltac:(lia)) as Hr.
  unfold Z.div, Z.modulo in Hq, Hr.
  destruct (Z.div_eucl (a * b) b) as [q r]. simpl in *. congruence.
Qed.

Lemma core_normal (m : positive) (e : Z) :
  Zpos (digits2_pos m) = 53 -> -1074 < e ->
  SFdiv_core_binary 53 1024 (Zpos m) e 4503599627370496 (-52)
  = (Zpos m~0, e - 1, loc_Exact).
Proof.
  intros Hd He. unfold SFdiv_core_binary.
  change (Zdigits2 (Zpos m)) with (Zpos (digits2_pos m)). rewrite Hd.
  change (Zdigits2 4503599627370496) with 53.
  replace (Z.min (fexp 53 1024 (53 + e - (53 + -52))) (e - -52)) with (e - 1)
    by (unfold fexp, emin; lia).
  replace (e - -52 - (e - 1)) with 53 by lia.
  cbv zeta iota.
  rewrite Z.shiftl_mul_pow2 by lia.
  replace (Zpos m * 2 ^ 53) with (Zpos m~0 * 4503599627370496) by lia.
  rewrite div_eucl_exact by lia. reflexivity.
Qed.

Lemma core_subnormal (m : positive) :
  Zpos (digits2_pos m) <= 53 ->
  SFdiv_core_binary 53 1024 (Zpos m) (-1074) 4503599627370496 (-52)
  = (Zpos m, -1074, loc_Exact).
Proof.
  intros Hd. unfold SFdiv_core_binary.
  change (Zdigits2 (Zpos m)) with (Zpos (digits2_pos m)).
  change (Zdigits2 4503599627370496) with 53.
  replace (Z.min (fexp 53 1024 (Zpos (digits2_pos m) + -1074 - (53 + -52)))
                 (-1074 - -52)) with (-1074)
    by (unfold fexp, emin; lia).
  change (-1074 - -52 - -1074) with 52.
  cbv zeta iota.
  rewrite Z.shiftl_mul_pow2 by lia.
  change (2 ^ 52) with 4503599627370496.
  rewrite div_eucl_exact by lia. reflexivity.
Qed.

Lemma round_canonical (s : bool) (m : positive) (e : Z) :
  bounded 53 1024 m e = true ->
  binary_round_aux 53 1024 s (Zpos m) e loc_Exact = S754_finite s m e.
Proof.
  unfold bounded, canonical_mantissa. intros H.
  apply andb_prop in H as [Hc He]. apply Z.eqb_eq in Hc.
  unfold binary_round_aux, shr_fexp.
  change (Zdigits2 (Zpos m)) with (Zpos (digits2_pos m)).
  rewrite Hc, Z.sub_diag. cbn [shr shr_record_of_loc shr_m loc_of_shr_record round_nearest_even].
  change (Zdigits2 (Zpos m)) with (Zpos (digits2_pos m)).
  rewrite Hc, Z.sub_diag. cbn [shr shr_record_of_loc shr_m].
  rewrite He. reflexivity.
Qed.

Lemma round_doubled (s : bool) (m : positive) (e : Z) :
  Zpos (digits2_pos m) = 53 -> -1074 < e -> e <= 971 ->
  binary_round_aux 53 1024 s (Zpos m~0) (e - 1) loc_Exact = S754_finite s m e.
Proof.
  intros Hd He He'. unfold binary_round_aux, shr_fexp.
  change (Zdigits2 (Zpos m~0)) with (Zpos (Pos.succ (digits2_pos m))).
  rewrite Pos2Z.inj_succ, Hd.
  replace (fexp 53 1024 (Z.succ 53 + (e - 1)) - (e - 1)) with 1
    by (unfold fexp, emin; lia).
  cbn [shr shr_record_of_loc SpecFloat.iter_pos shr_1 orb shr_m
       loc_of_shr_record round_nearest_even].
  change (Zdigits2 (Zpos m)) with (Zpos (digits2_pos m)). rewrite Hd.
  replace (fexp 53 1024 (53 + (e - 1 + 1)) - (e - 1 + 1)) with 0
    by (unfold fexp, emin; lia).
  cbn [shr shr_record_of_loc shr_m].
  replace (e - 1 + 1) with e by lia.
  apply Z.leb_le in He'. change (1024 - 53) with 971. rewrite He'. reflexivity.
Qed.

Lemma div_one (x : spec_float) :
  float64.valid x = true -> float64.div x float64.one = x.
Proof.
  unfold float64.valid, float64.div, float64.one, float64.prec, float64.emax.
  destruct x as [s|s| |s m e]; simpl; intros Hv; try reflexivity;
    try (rewrite xorb_false_r; reflexivity).
  rewrite xorb_false_r.
  pose proof Hv as Hb. unfold bounded, canonical_mantissa in Hb.
  apply andb_prop in Hb as [Hc He]. apply Z.eqb_eq in Hc. apply Z.leb_le in He.
  unfold fexp, emin in Hc.
  destruct (Z.eq_dec e (-1074)) as [->|Hne].
  - rewrite core_subnormal by lia. apply round_canonical. exact Hv.
  - assert (Hd : Zpos (digits2_pos m) = 53) by lia.
    rewrite core_normal by lia. apply round_doubled; lia.
Qed.

(** ** The parser on one sample *)

Section ParserFacts.

Variable ParseFloat : string -> spec_float * bool.

Lemma samplesLoop_single (metric sample : string) :
  samplesLoop ParseFloat metric [sample] = sampleToEvents ParseFloat metric sample.
Proof.
  simpl. destruct (sampleToEvents ParseFloat metric sample) as [[evs log]|];
    simpl; [rewrite !app_nil_r|]; reflexivity.
Qed.

(** A well-formed line [metric:rest]: its samples are parsed one after the
    other, each with the same metric name. *)
Lemma lineToEvents_samples (metric rest : string) :
  metric <> EmptyString -> lacks ":" metric ->
  utf8.ValidString (metric +:+ String ":" rest) = true ->
  lineToEvents ParseFloat (metric +:+ String ":" rest)
  = samplesLoop ParseFloat metric
      (if strings.Contains rest "|#" then [rest] else strings.Split rest ":").
Proof.
  intros Hne Hm Hv. unfold lineToEvents.
  destruct metric as [|c metric]; [congruence|].
  change (String.eqb (String c metric +:+ String ":" rest) "") with false.
  cbv iota. rewrite SplitN2_app by exact Hm. rewrite Hv.
  change (len (String c metric) =? 0) with false. cbn [orb negb]. reflexivity.
Qed.

(** A line [metric:sample] whose sample holds no colon. *)
Lemma lineToEvents_one_sample (metric sample : string) :
  metric <> EmptyString -> lacks ":" metric -> lacks ":" sample ->
  utf8.ValidString (metric +:+ String ":" sample) = true ->
  lineToEvents ParseFloat (metric +:+ String ":" sample)
  = sampleToEvents ParseFloat metric sample.
Proof.
  intros Hne Hm Hs Hv. rewrite lineToEvents_samples by assumption.
  rewrite (Split_lacks sample) by exact Hs.
  destruct (strings.Contains sample "|#"); apply samplesLoop_single.
Qed.

(** The modifier [@F] of a counter sample, wherever it stands among the
    modifiers: the value is divided by the factor, one for a factor of zero. *)
Lemma componentStep_counter_factor (F : string) (f : spec_float) (err : bool)
    (v : SampleVars) :
  ParseFloat F = (f, err) ->
  componentStep ParseFloat "c" (String "@" F) v
  = Some (mkVars (effectiveFactor f)
            (float64.div (v_value v) (effectiveFactor f))
            (v_multiplyEvents v) (v_labels v),
          if err then [sampleErrors "invalid_sample_factor"] else []).
Proof. intros HPF. unfold componentStep. cbn. rewrite HPF. reflexivity. Qed.

(** The modifier [@F] of a timer sample: the number of events is the
    integer part of the reciprocal of the factor. *)
Lemma componentStep_timer_factor (F : string) (f : spec_float) (err : bool)
    (v : SampleVars) :
  ParseFloat F = (f, err) ->
  componentStep ParseFloat "ms" (String "@" F) v
  = Some (mkVars (effectiveFactor f) (v_value v)
            (float64.to_int (float64.div float64.one (effectiveFactor f)))
            (v_labels v),
          if err then [sampleErrors "invalid_sample_factor"] else []).
Proof. intros HPF. unfold componentStep. cbn. rewrite HPF. reflexivity. Qed.


(** A sample [V|T|M] with one modifier component. *)
Lemma sampleToEvents_modifier (metric V T M : string) (x : spec_float) :
  lacks "|" V -> lacks "|" T -> lacks "|" M -> M <> EmptyString ->
  ParseFloat V = (x, false) ->
  sampleToEvents ParseFloat metric (V +:+ String "|" (T +:+ String "|" M))
  = '(v, log) ← componentStep ParseFloat T M (mkVars float64.one x 1 ∅);
    let '(events, log') :=
      emitLoop (Z.to_nat (v_multiplyEvents v)) T metric (v_value v)
        (strings.IndexIsZero V "+" || strings.IndexIsZero V "-") (v_labels v) in
    Some (events, samplesReceived :: log ++ log').
Proof.
  intros HV HT HM Hne HPF. unfold sampleToEvents.
  rewrite (Split_app V) by exact HV. rewrite (Split_app T) by exact HT.
  rewrite (Split_lacks M) by exact HM.
  cbn [length Nat.ltb Nat.leb orb]. rewrite HPF.
  destruct M as [|c M]; [congruence|].
  change (existsb _ [String c M]) with false. cbv iota.
  cbn [componentsLoop].
  destruct (componentStep ParseFloat T (String c M) (mkVars float64.one x 1 ∅))
    as [[v log]|]; [|reflexivity].
  simpl. rewrite app_nil_r. reflexivity.
Qed.




Lemma emitLoop_timer (n : nat) (metric : string) (x : spec_float)
    (relative : bool) (l : Labels) :
  emitLoop n "ms" metric x relative l = (repeat (TimerEvent metric x l) n, []).
Proof.
  induction n as [|n IH]; [reflexivity|]. simpl. rewrite IH. reflexivity.
Qed.

End ParserFacts.

Lemma plain_lacks (s : string) :
  plain s = true -> lacks ":" s /\ lacks "|" s.
Proof.
  unfold plain. intros H. apply andb_prop in H as [H1 H2].
  split; apply lacksb_lacks; assumption.
Qed.

(** A value above zero is finite or the positive infinity. *)
Lemma ltb_zero_inv (f : spec_float) :
  float64.ltb float64.zero f = true ->
  f = S754_infinity false \/ exists m e, f = S754_finite false m e.
Proof.
  destruct f as [s|[|]| |[|] m e]; try discriminate; intros _; eauto.
Qed.

Lemma ltb_zero_neq (f : spec_float) :
  float64.ltb float64.zero f = true -> float64.eqb f float64.zero = false.
Proof.
  intros H. destruct (ltb_zero_inv f H) as [->|(m & e & ->)]; reflexivity.
Qed.

Lemma binary_round_aux_sign (s : bool) (mx ex : Z) (lx : location) :
  match binary_round_aux float64.prec float64.emax s mx ex lx with
  | S754_zero s' | S754_infinity s' | S754_finite s' _ _ => s' = s
  | S754_nan => True
  end.
Proof.
  unfold binary_round_aux.
  destruct (shr_fexp float64.prec float64.emax mx ex lx) as [mrs' e'].
  destruct (shr_fexp float64.prec float64.emax _ e' loc_Exact) as [mrs'' e''].
  destruct (shr_m mrs''); [reflexivity| |exact I].
  destruct (e'' <=? float64.emax - float64.prec); reflexivity.
Qed.

(** The integer part of [1/f] is not negative when [f] is above zero. *)
Lemma trunc_reciprocal_nonneg (f : spec_float) (k : Z) :
  float64.ltb float64.zero f = true ->
  float64.trunc (float64.div float64.one f) = Some k -> 0 <= k.
Proof.
  intros Hpos. destruct (ltb_zero_inv f Hpos) as [->|(m & e & ->)].
  - simpl. intros [= <-]. lia.
  - unfold float64.div, float64.one, SFdiv.
    destruct (SFdiv_core_binary float64.prec float64.emax
                4503599627370496 (-52) (Z.pos m) e) as [[mz ez] lz].
    pose proof (binary_round_aux_sign (xorb false false) mz ez lz) as Hs.
    destruct (binary_round_aux float64.prec float64.emax (xorb false false) mz ez lz)
      as [s'|s'| |s' m' e']; simpl; try discriminate.
    + intros [= <-]. lia.
    + subst s'. simpl. intros [= <-]. apply Z.shiftl_nonneg. lia.
Qed.

Lemma to_int_in_range (x : spec_float) (k : Z) :
  float64.trunc x = Some k -> float64.minInt <= k <= float64.maxInt ->
  float64.to_int x = k.
Proof.
  intros Ht [Hlo Hhi]. unfold float64.to_int. rewrite Ht.
  apply Z.leb_le in Hlo, Hhi. rewrite Hlo, Hhi. reflexivity.
Qed.

(** ** Sampling factors *)

(** C1 (as the code has it): a timer sample [X|ms|@F] whose factor [f] is in
    (0, 1] and whose float64 quotient [1/f] has an integer part [k] that fits
    Go's [int] gives exactly [k] timer events, each with the value of [X] and
    no labels; nothing but [samplesReceived] is incremented. *)
Theorem timer_sampling_events (ParseFloat : string -> spec_float * bool)
    (metric X F : string) (x f : spec_float) (k : Z) :
  metric <> EmptyString -> lacksb ":" metric = true ->
  plain X = true -> plain F = true ->
  utf8.ValidString (metric +:+ ":" +:+ X +:+ "|ms|@" +:+ F) = true ->
  ParseFloat X = (x, false) -> ParseFloat F = (f, false) ->
  float64.ltb float64.zero f = true -> float64.leb f float64.one = true ->
  float64.trunc (float64.div float64.one f) = Some k -> k <= float64.maxInt ->
  lineToEvents ParseFloat (metric +:+ ":" +:+ X +:+ "|ms|@" +:+ F)
  = Some (repeat (TimerEvent metric x ∅) (Z.to_nat k), [samplesReceived]).
Proof.
  intros Hne Hm HX HF Hv HPX HPF Hpos _ Hk Hmax.
  apply lacksb_lacks in Hm.
  apply plain_lacks in HX as [HXc HXp]. apply plain_lacks in HF as [HFc HFp].
  change (metric +:+ ":" +:+ X +:+ "|ms|@" +:+ F)
    with (metric +:+ String ":" (X +:+ String "|" ("ms" +:+ String "|" (String "@" F)))) in *.
  rewrite lineToEvents_one_sample; try assumption.
  2:{ apply lacks_app. split; [exact HXc|]. simpl. repeat split; try discriminate. exact HFc. }
  rewrite (sampleToEvents_modifier ParseFloat metric X "ms" (String "@" F) x);
    try assumption; try discriminate.
  2:{ simpl. repeat split; discriminate. }
  2:{ simpl. split; [discriminate | exact HFp]. }
  rewrite (componentStep_timer_factor ParseFloat F f false _ HPF).
  unfold effectiveFactor. rewrite (ltb_zero_neq f Hpos).
  cbn [mbind option_bind v_multiplyEvents v_value v_labels].
  rewrite (to_int_in_range _ k Hk).
  2:{ pose proof (trunc_reciprocal_nonneg f k Hpos Hk).
      unfold float64.minInt. lia. }
  rewrite emitLoop_timer. reflexivity.
Qed.

Lemma timer_sampling_events_witness :
  lineToEvents ShortDecimal.ParseFloat
    ("request.api.users" +:+ ":" +:+ "42" +:+ "|ms|@" +:+ "0.1")
  = Some (repeat (TimerEvent "request.api.users"
                    (fst (ShortDecimal.ParseFloat "42")) ∅) (Z.to_nat 10),
          [samplesReceived]).
Proof.
  apply (timer_sampling_events ShortDecimal.ParseFloat "request.api.users"
           "42" "0.1" (fst (ShortDecimal.ParseFloat "42"))
           (fst (ShortDecimal.ParseFloat "0.1")) 10);
    try (vm_compute; reflexivity); discriminate.
Defined.

(** C1 (as stated) fails for a small factor.  With [@0.00000000000000000005]
    the factor is in (0, 1] and floor(1/f) is about 2 * 10^19, whether the
    division is exact or the float64 one; that is beyond the range of [int],
    the conversion gives a negative count and the loop emits no event. *)
Lemma timer_sampling_tiny_factor :
  exists f k,
    ShortDecimal.ParseFloat tiny_factor = (f, false)
    /\ float64.ltb float64.zero f = true
    /\ float64.leb f float64.one = true
    /\ floor_reciprocal f = Some 20000000000000000495
    /\ float64.trunc (float64.div float64.one f) = Some k
    /\ float64.maxInt < k
    /\ lineToEvents ShortDecimal.ParseFloat ("t:5|ms|@" +:+ tiny_factor)
       = Some ([], [samplesReceived]).
Proof.
  eexists. eexists.
  split; [vm_compute; reflexivity|].
  split; [vm_compute; reflexivity|].
  split; [vm_compute; reflexivity|].
  split; [vm_compute; reflexivity|].
  split; [vm_compute; reflexivity|].
  split; vm_compute; reflexivity.
Qed.



(** Scenario values: 100 sampled at 0.1 is recorded as 1000, with or without
    DogStatsD tags after the factor, each sample of a line is scaled by its
    own factor, and a factor of zero leaves the value as it is. *)
Example counter_sampling_scenarios :
  eventsOfLine ShortDecimal.ParseFloat "page.views:100|c|@0.1"
  = Some [CounterEvent "page.views" (float64.of_Z 1000) ∅]
  /\ eventsOfLine ShortDecimal.ParseFloat "foo:100|c|@0.1|#tag1:bar,#tag2:baz"
     = Some [CounterEvent "foo" (float64.of_Z 1000)
               (<["tag1" := "bar"]> (<["tag2" := "baz"]> ∅))]
  /\ eventsOfLine ShortDecimal.ParseFloat "a.b:1|c|@0.5:3|c"
     = Some [CounterEvent "a.b" (float64.of_Z 2) ∅;
             CounterEvent "a.b" (float64.of_Z 3) ∅]
  /\ eventsOfLine ShortDecimal.ParseFloat "page.views:2|c|@0"
     = Some [CounterEvent "page.views" (float64.of_Z 2) ∅].
Proof. repeat split; vm_compute; reflexivity. Qed.




(** The call itself is not total: a DogStatsD tag with an empty name takes
    [escapeMetricName] to [metricName[0]] on the empty string. *)
Example lineToEvents_empty_tag_name :
  lineToEvents ShortDecimal.ParseFloat "foo:1|c|#:bar" = None.
Proof. vm_compute. reflexivity. Qed.

(** ** The family containers *)

Lemma incs_app (s : Stat) (l l' : list Stat) :
  incs s (l ++ l') = (incs s l + incs s l')%nat.
Proof. unfold incs. rewrite filter_app, length_app. reflexivity. Qed.

Lemma incs_one (s : Stat) : incs s [s] = 1%nat.
Proof.
  unfold incs. rewrite filter_cons. destruct (decide (s = s)); [reflexivity|congruence].
Qed.

Lemma incs_other (s t : Stat) : t <> s -> incs s [t] = 0%nat.
Proof.
  intros Hne. unfold incs. rewrite filter_cons.
  destruct (decide (t = s)); [congruence|reflexivity].
Qed.

Section ContainerFacts.

Variable validDesc : string -> list string -> bool.
Variable validValue : string -> bool.

(** A successful [Get] leaves the family in the container, with the child
    under the key returned: the child it had, or a new one. *)
Lemma containerGet_child {O} (opts : O) (metricName : string) (labels : Labels)
    (help : string) (Elements Elements' : gmap string (Vec O))
    (reg reg' : Registry) (key : list string) :
  containerGet validDesc validValue opts metricName labels help Elements reg
  = (Elements', reg', Some key) ->
  exists vec,
    Elements' !! metricName = Some vec
    /\ vecChildren vec !! key = Some (default [] (childOf Elements metricName key)).
Proof.
  unfold containerGet, childOf.
  destruct (Elements !! metricName) as [vec0|] eqn:Hvec.
  - unfold GetMetricWith.
    destruct (labelsFit validValue (vecLabelNames vec0) labels); [|intros [= _ _ ?]; discriminate].
    destruct (vecChildren vec0 !! childKey (vecLabelNames vec0) labels) as [ops|] eqn:Hops.
    + intros [= <- _ <-]. exists vec0. rewrite lookup_insert_eq. simpl.
      rewrite Hops. split; reflexivity.
    + intros [= <- _ <-]. eexists. rewrite lookup_insert_eq. split; [reflexivity|].
      simpl. rewrite lookup_insert_eq, Hops. reflexivity.
  - destruct (Register validDesc metricName help (labelNames labels) reg) as [r|];
      [|intros [= _ _ ?]; discriminate].
    unfold GetMetricWith. simpl vecLabelNames. simpl vecChildren.
    destruct (labelsFit validValue (labelNames labels) labels); [|intros [= _ _ ?]; discriminate].
    rewrite lookup_empty. intros [= <- _ <-]. eexists.
    rewrite lookup_insert_eq. split; [reflexivity|].
    simpl. rewrite lookup_insert_eq. reflexivity.
Qed.

(** A failed [Get] under a name that the registry already holds changes
    neither the container nor the registry. *)
Lemma containerGet_conflict {O} (opts : O) (metricName : string)
    (labels : Labels) (help : string) (Elements Elements' : gmap string (Vec O))
    (reg reg' : Registry) :
  is_Some (reg !! metricName) ->
  containerGet validDesc validValue opts metricName labels help Elements reg
  = (Elements', reg', None) ->
  Elements' = Elements /\ reg' = reg.
Proof.
  intros [d Hd]. unfold containerGet.
  destruct (Elements !! metricName) as [vec0|] eqn:Hvec.
  - unfold GetMetricWith.
    destruct (labelsFit validValue (vecLabelNames vec0) labels).
    + destruct (vecChildren vec0 !! _); intros [= _ _ ?]; discriminate.
    + intros [= <- <-]. split; [|reflexivity]. apply insert_id. exact Hvec.
  - unfold Register. rewrite Hd.
    destruct (negb (validDesc metricName (labelNames labels)));
      intros [= <- <-]; split; reflexivity.
Qed.

End ContainerFacts.

(** ** handleEvent *)

Section HandleEventFacts.

Variable validDesc : string -> list string -> bool.
Variable validValue : string -> bool.
Variable LabelsToSignature : Labels -> Z.
Variable mapper : MetricMapper.

(** A successful lookup behind [observe]: the child gets the call, the record
    of the series is saved and the counter of the event type moves. *)
Lemma observe_success {O} (type : string) (op : Op) (now : Z)
    (metricName : string) (labels : Labels) (ttl : Z)
    (Elements : gmap string (Vec O)) (reg : Registry) (key : list string)
    (put : gmap string (Vec O) -> Exporter -> Exporter) (b : Exporter)
    (vec : Vec O) (ops : list Op) :
  Elements !! metricName = Some vec ->
  vecChildren vec !! key = Some ops ->
  exists Elements',
    observe LabelsToSignature type op now metricName labels ttl
      (Elements, reg, Some key) put b
    = Inc (eventStats type)
        (let b := put Elements' b in
         mkExporter (Counters b) (Gauges b) (Summaries b) (Histograms b)
           (saveLabelValues LabelsToSignature now metricName labels ttl (labelValues b))
           reg (stats b))
    /\ childOf Elements' metricName key = Some (ops ++ [op]).
Proof.
  intros Hvec Hops. eexists. split; [reflexivity|].
  unfold childOf. rewrite lookup_alter_eq, Hvec. simpl.
  rewrite lookup_alter_eq, Hops. reflexivity.
Qed.

(** C3 (as the code has it): a counter event that its rule does not drop,
    under a non-empty name.  With a negative value no family, no label-value
    record and no registration changes and [illegal_negative_counter] is
    incremented exactly once.  With any other value, if the lookup of the
    child succeeds, the child has received one more call: the addition of the
    value. *)
Theorem handleEvent_counter (now : Z) (name : string) (v : spec_float)
    (labels : Labels) (b : Exporter) (metricName : string) :
  dropped mapper (CounterEvent name v labels) = false ->
  familyName mapper (CounterEvent name v labels) = Some metricName ->
  exists b',
    handleEvent validDesc validValue LabelsToSignature mapper now
      (CounterEvent name v labels) b = Some b'
    /\ (float64.ltb v float64.zero = true ->
        Counters b' = Counters b /\ Gauges b' = Gauges b
        /\ Summaries b' = Summaries b /\ Histograms b' = Histograms b
        /\ labelValues b' = labelValues b /\ registry b' = registry b
        /\ stats b' = stats b ++ unmappedLog mapper (CounterEvent name v labels)
                        ++ [eventStats "illegal_negative_counter"]
        /\ incs (eventStats "illegal_negative_counter") (stats b')
           = S (incs (eventStats "illegal_negative_counter") (stats b)))
    /\ (float64.ltb v float64.zero = false ->
        forall key,
          lookupChild validDesc validValue mapper (CounterEvent name v labels) b
          = Some key ->
          childOf (Counters b') metricName key
          = Some (default [] (childOf (Counters b) metricName key) ++ [OpAdd v])).
Proof.
  intros Hdrop Hname.
  unfold handleEvent, dropped, familyName, unmappedLog, lookupChild,
    familyLabels, familyName in *.
  destruct (mappingOf mapper (CounterEvent name v labels))
    as [[mapping mlabels] present] eqn:Hmap.
  cbn [fst snd] in *.
  assert (Hgo : forall (A : Type) (x y : A),
            match Action mapping with ActionTypeDrop => x | _ => y end = y).
  { intros A x y. destruct (Action mapping); [reflexivity..|discriminate]. }
  rewrite Hgo. clear Hgo Hdrop.
  cbn [Value MetricName EventLabels] in *.
  destruct present; rewrite Hname; cbn [mbind option_bind];
    destruct (float64.ltb v float64.zero) eqn:Hneg.
  - eexists. split; [reflexivity|]. split; [|discriminate]. intros _.
    cbn [Inc stats Counters Gauges Summaries Histograms labelValues registry app].
    repeat split; try reflexivity.
    rewrite incs_app, incs_one. lia.
  - match goal with
    | |- context [CounterContainer_Get ?vd ?vv ?n ?l ?h ?E ?r] =>
        destruct (CounterContainer_Get vd vv n l h E r) as [[E' reg'] res] eqn:Hget
    end.
    eexists. split; [reflexivity|]. split; [discriminate|]. intros _ key Hkey.
    cbn [snd] in Hkey. subst res.
    destruct (containerGet_child _ _ _ _ _ _ _ _ _ _ _ Hget) as (vec & Hvec & Hops).
    destruct (observe_success "counter" (OpAdd v) now metricName
                (mlabels ∪ labels) (Ttl mapping) E' reg' key putCounters b
                vec _ Hvec Hops) as (E'' & -> & Hchild).
    exact Hchild.
  - eexists. split; [reflexivity|]. split; [|discriminate]. intros _.
    cbn [Inc stats Counters Gauges Summaries Histograms labelValues registry].
    repeat split; try reflexivity.
    + rewrite <- app_assoc. reflexivity.
    + rewrite !incs_app, incs_one, (incs_other _ eventsUnmapped) by discriminate. lia.
  - match goal with
    | |- context [CounterContainer_Get ?vd ?vv ?n ?l ?h ?E ?r] =>
        destruct (CounterContainer_Get vd vv n l h E r) as [[E' reg'] res] eqn:Hget
    end.
    eexists. split; [reflexivity|]. split; [discriminate|]. intros _ key Hkey.
    cbn [Counters registry Inc] in Hget. rewrite Hget in Hkey.
    cbn [snd] in Hkey. subst res.
    destruct (containerGet_child _ _ _ _ _ _ _ _ _ _ _ Hget) as (vec & Hvec & Hops).
    destruct (observe_success "counter" (OpAdd v) now metricName
                labels (Ttl mapping) E' reg' key putCounters
                (Inc eventsUnmapped b)
                vec _ Hvec Hops) as (E'' & -> & Hchild).
    exact Hchild.
Qed.

(** C8: an event that reaches the lookup of its child, under a name that the
    registry already holds, and whose lookup fails.  The conflict counter of
    its type is incremented (after [eventsUnmapped] for an event without a
    rule) and nothing else changes: the four containers with their families
    and children, the label-value records and the registry are those of
    before. *)
Theorem handleEvent_conflict (now : Z) (event : Event) (b : Exporter)
    (metricName : string) :
  dropped mapper event = false ->
  familyName mapper event = Some metricName ->
  rejected event = false ->
  is_Some (registry b !! metricName) ->
  lookupChild validDesc validValue mapper event b = None ->
  exists b',
    handleEvent validDesc validValue LabelsToSignature mapper now event b = Some b'
    /\ Counters b' = Counters b /\ Gauges b' = Gauges b
    /\ Summaries b' = Summaries b /\ Histograms b' = Histograms b
    /\ labelValues b' = labelValues b /\ registry b' = registry b
    /\ stats b' = stats b ++ unmappedLog mapper event
                    ++ [conflictingEventStats (typeName event)].
Proof.
  intros Hdrop Hname Hrej Hreg Hfail.
  unfold handleEvent, dropped, familyName, unmappedLog, lookupChild,
    familyLabels, familyName, timerTypeOf in *.
  destruct (mappingOf mapper event) as [[mapping mlabels] present] eqn:Hmap.
  cbn [fst snd] in *.
  assert (Hgo : forall (A : Type) (x y : A),
            match Action mapping with ActionTypeDrop => x | _ => y end = y).
  { intros A x y. destruct (Action mapping); [reflexivity..|discriminate]. }
  rewrite Hgo. clear Hgo Hdrop.
  rewrite Hname in Hfail. cbn [mbind option_bind] in Hfail.
  assert (Hput : forall (O : Type) (type : string) (op : Op) (l : Labels)
                   (E : gmap string (Vec O)) (b0 : Exporter)
                   (put : gmap string (Vec O) -> Exporter -> Exporter)
                   (get : gmap string (Vec O) * Registry * option (list string)),
            (fun x => snd x) get = None ->
            (forall E' reg', get = (E', reg', None) ->
                             E' = E /\ reg' = registry b0) ->
            exists E', 
              observe LabelsToSignature type op now metricName l (Ttl mapping)
                get put b0
              = Inc (conflictingEventStats type)
                  (let b1 := put E b0 in
                   mkExporter (Counters b1) (Gauges b1) (Summaries b1)
                     (Histograms b1) (labelValues b1) (registry b0) (stats b1))
              /\ E' = E).
  { intros O type op l E b0 put [[E' reg'] res] Hres Hsame. cbn in Hres. subst res.
    destruct (Hsame E' reg' eq_refl) as [-> ->]. exists E. split; reflexivity. }
  destruct present; rewrite Hname; cbn [mbind option_bind];
    destruct event as [n v l|n v r l|n v l]; cbn [rejected Value typeName] in *;
    try rewrite Hrej;
    try (destruct (MappingTimerType mapping); destruct (DefaultTimerType (Defaults mapper)));
    cbv iota;
    match goal with
    | |- context [observe _ ?type ?op _ _ ?l _ ?get ?put ?b0] =>
        let E := match put with
                 | putCounters => constr:(Counters b)
                 | putGauges => constr:(Gauges b)
                 | putSummaries => constr:(Summaries b)
                 | putHistograms => constr:(Histograms b)
                 end in
        destruct (Hput _ type op l E b0 put get) as (E' & -> & _);
          [exact Hfail
          |intros E1 reg1 Hget;
           unfold CounterContainer_Get, GaugeContainer_Get,
             SummaryContainer_Get, HistogramContainer_Get in Hget;
           apply (containerGet_conflict validDesc validValue) in Hget;
             [exact Hget | exact Hreg]
          |]
    end;
    (eexists; split; [reflexivity|]);
    destruct b; cbn; repeat split; try reflexivity;
    rewrite <- app_assoc; reflexivity.
Qed.

End HandleEventFacts.

Lemma handleEvent_counter_witness :
  exists b',
    handleEvent anyDesc anyValue noSignature noRules 100
      (CounterEvent "foo.bar" minus_five ∅) NewExporter = Some b'
    /\ (float64.ltb minus_five float64.zero = true ->
        Counters b' = Counters NewExporter /\ Gauges b' = Gauges NewExporter
        /\ Summaries b' = Summaries NewExporter
        /\ Histograms b' = Histograms NewExporter
        /\ labelValues b' = labelValues NewExporter
        /\ registry b' = registry NewExporter
        /\ stats b' = stats NewExporter
                        ++ unmappedLog noRules (CounterEvent "foo.bar" minus_five ∅)
                        ++ [eventStats "illegal_negative_counter"]
        /\ incs (eventStats "illegal_negative_counter") (stats b')
           = S (incs (eventStats "illegal_negative_counter") (stats NewExporter)))
    /\ (float64.ltb minus_five float64.zero = false ->
        forall key,
          lookupChild anyDesc anyValue noRules
            (CounterEvent "foo.bar" minus_five ∅) NewExporter = Some key ->
          childOf (Counters b') "foo_bar" key
          = Some (default [] (childOf (Counters NewExporter) "foo_bar" key)
                  ++ [OpAdd minus_five])).
Proof.
  apply (handleEvent_counter anyDesc anyValue noSignature noRules 100
           "foo.bar" minus_five ∅ NewExporter "foo_bar").
  - vm_compute. reflexivity.
  - vm_compute. reflexivity.
Defined.

(** C3 (as stated) fails for an event that its rule drops: [handleEvent]
    returns at the drop action, before the test of the sign, and the negative
    counter event leaves every counter as it was. *)
Lemma handleEvent_dropped_negative_counter :
  float64.ltb minus_five float64.zero = true
  /\ handleEvent anyDesc anyValue noSignature dropAll 100
       (CounterEvent "metric.name" minus_five ∅) NewExporter
     = Some NewExporter
  /\ incs (eventStats "illegal_negative_counter") (stats NewExporter) = 0%nat.
Proof. repeat split; vm_compute; reflexivity. Qed.

(** Scenarios 1 and 6 of the specification. *)
Example handleEvent_scenarios :
  (b ← handleEvent anyDesc anyValue noSignature noRules 100
         (CounterEvent "foo.bar" float64.one ∅) NewExporter;
   Some (childOf (Counters b) "foo_bar" [], stats b))
  = Some (Some [OpAdd float64.one], [eventsUnmapped; eventStats "counter"])
  /\ (b ← handleEvent anyDesc anyValue noSignature noRules 100
            (CounterEvent "metric.name" minus_five ∅) NewExporter;
      Some (Counters b, stats b))
     = Some (∅, [eventsUnmapped; eventStats "illegal_negative_counter"]).
Proof. split; vm_compute; reflexivity. Qed.

Lemma handleEvent_conflict_witness :
  exists b',
    handleEvent anyDesc anyValue noSignature noRules 101
      (CounterEvent "foo" float64.one {["a" := "b"]}) afterFoo = Some b'
    /\ Counters b' = Counters afterFoo /\ Gauges b' = Gauges afterFoo
    /\ Summaries b' = Summaries afterFoo /\ Histograms b' = Histograms afterFoo
    /\ labelValues b' = labelValues afterFoo /\ registry b' = registry afterFoo
    /\ stats b'
       = stats afterFoo
           ++ unmappedLog noRules (CounterEvent "foo" float64.one {["a" := "b"]})
           ++ [conflictingEventStats
                 (typeName (CounterEvent "foo" float64.one {["a" := "b"]}))].
Proof.
  apply (handleEvent_conflict anyDesc anyValue noSignature noRules 101
           (CounterEvent "foo" float64.one {["a" := "b"]}) afterFoo "foo").
  - vm_compute. reflexivity.
  - vm_compute. reflexivity.
  - vm_compute. reflexivity.
  - vm_compute. eexists. reflexivity.
  - vm_compute. reflexivity.
Defined.

(** ** removeStaleMetrics *)

Section StaleFacts.

Variable validValue : string -> bool.
Variable now : Z.

Lemma removeIfStale_stale (metricName : string) (hash : Z) (lvs : LabelValues)
    (b : Exporter) :
  removeIfStale validValue now metricName hash lvs b
  = if stale now lvs then
      mkExporter
        (containerDelete validValue metricName (lvLabels lvs) (Counters b))
        (containerDelete validValue metricName (lvLabels lvs) (Gauges b))
        (containerDelete validValue metricName (lvLabels lvs) (Summaries b))
        (containerDelete validValue metricName (lvLabels lvs) (Histograms b))
        (alter (delete hash) metricName (labelValues b))
        (registry b) (stats b)
    else b.
Proof.
  unfold removeIfStale, stale. destruct (ttl lvs =? 0); [reflexivity|].
  destruct (time.Before _ now); reflexivity.
Qed.

Lemma nested_loops_foldr (l : list (string * gmap Z LabelValues))
    (b : Exporter) :
  foldr
    (uncurry (fun (metricName : string) (records : gmap Z LabelValues)
                (b : Exporter) =>
       map_fold (fun hash lvs b => removeIfStale validValue now metricName hash lvs b)
                b records)) b l
  = foldr (visit validValue now) b
      (l ≫= fun '(metricName, records) =>
         (fun '(hash, lvs) => (metricName, hash, lvs)) <$> map_to_list records).
Proof.
  induction l as [|[metricName records] l IH]; [reflexivity|].
  cbn [foldr uncurry mbind list_bind]. rewrite foldr_app, <- IH.
  rewrite map_fold_foldr.
  generalize (foldr
    (uncurry (fun (metricName0 : string) (records0 : gmap Z LabelValues)
                (b1 : Exporter) =>
       map_fold (fun hash lvs b2 => removeIfStale validValue now metricName0 hash lvs b2)
                b1 records0)) b l).
  intros b1. induction (map_to_list records) as [|[hash lvs] r IHr]; [reflexivity|].
  cbn [foldr uncurry fmap list_fmap]. rewrite IHr. reflexivity.
Qed.

(** The two nested loops visit the records of [recordsList]. *)
Lemma removeStaleMetrics_foldr (b : Exporter) :
  removeStaleMetrics validValue now b
  = foldr (visit validValue now) b (recordsList (labelValues b)).
Proof.
  unfold removeStaleMetrics, recordsList. rewrite map_fold_foldr.
  apply nested_loops_foldr.
Qed.

Lemma elem_of_recordsList (lv : gmap string (gmap Z LabelValues))
    (metricName : string) (hash : Z) (lvs : LabelValues) :
  (metricName, hash, lvs) ∈ recordsList lv
  <-> exists records, lv !! metricName = Some records /\ records !! hash = Some lvs.
Proof.
  unfold recordsList. rewrite list_elem_of_bind. split.
  - intros ([n records] & Hin & Hrec). apply elem_of_map_to_list in Hrec.
    apply list_elem_of_fmap in Hin as ([h l] & Heq & Hin).
    apply elem_of_map_to_list in Hin. injection Heq as -> -> ->.
    exists records. split; assumption.
  - intros (records & Hrec & Hlvs). exists (metricName, records). split.
    + apply list_elem_of_fmap. exists (hash, lvs). split; [reflexivity|].
      apply elem_of_map_to_list. exact Hlvs.
    + apply elem_of_map_to_list. exact Hrec.
Qed.

Lemma elem_of_recordsList_recordOf (b : Exporter)
    (metricName : string) (hash : Z) (lvs : LabelValues) :
  (metricName, hash, lvs) ∈ recordsList (labelValues b)
  <-> recordOf b metricName hash = Some lvs.
Proof.
  rewrite elem_of_recordsList. unfold recordOf. split.
  - intros (records & -> & Hlvs). exact Hlvs.
  - destruct (labelValues b !! metricName) as [records|]; [|discriminate].
    simpl. intros Hlvs. exists records. split; [reflexivity | exact Hlvs].
Qed.

End StaleFacts.

Section StaleLoop.

Variable validValue : string -> bool.
Variable now : Z.

Lemma visit_frame (l : list (string * Z * LabelValues)) (b : Exporter) :
  registry (foldr (visit validValue now) b l) = registry b
  /\ stats (foldr (visit validValue now) b l) = stats b.
Proof.
  induction l as [|t l [IHr IHs]]; [split; reflexivity|].
  cbn [foldr]. unfold visit at 1 3. rewrite removeIfStale_stale.
  destruct (stale now t.2); [split; assumption | split; assumption].
Qed.

Lemma visit_container (l : list (string * Z * LabelValues)) (b : Exporter) :
  Counters (foldr (visit validValue now) b l)
  = foldr (deleteIfStale validValue now) (Counters b) l
  /\ Gauges (foldr (visit validValue now) b l)
     = foldr (deleteIfStale validValue now) (Gauges b) l
  /\ Summaries (foldr (visit validValue now) b l)
     = foldr (deleteIfStale validValue now) (Summaries b) l
  /\ Histograms (foldr (visit validValue now) b l)
     = foldr (deleteIfStale validValue now) (Histograms b) l.
Proof.
  induction l as [|t l (IHc & IHg & IHs & IHh)]; [repeat split; reflexivity|].
  cbn [foldr]. unfold visit at 1 3 5 7. rewrite removeIfStale_stale.
  unfold deleteIfStale at 1 3 5 7.
  destruct (stale now t.2); cbn [Counters Gauges Summaries Histograms];
    rewrite <- ?IHc, <- ?IHg, <- ?IHs, <- ?IHh; repeat split; reflexivity.
Qed.

Lemma recordOf_visit (t : string * Z * LabelValues) (b : Exporter)
    (metricName : string) (hash : Z) :
  recordOf (visit validValue now t b) metricName hash
  = if staleAt now metricName hash t then None else recordOf b metricName hash.
Proof.
  destruct t as [[n h] lvs]. unfold visit, staleAt. cbn [fst snd].
  rewrite removeIfStale_stale.
  destruct (stale now lvs); [|reflexivity]. cbn [andb].
  unfold recordOf. cbn [labelValues].
  destruct (decide (n = metricName)) as [->|Hn].
  - rewrite lookup_alter_eq.
    destruct (labelValues b !! metricName) as [records|]; simpl.
    + destruct (decide (h = hash)) as [->|Hh].
      * rewrite bool_decide_true by (split; reflexivity). apply lookup_delete_eq.
      * rewrite bool_decide_false by (intros [_ ?]; contradiction).
        apply lookup_delete_ne. exact Hh.
    + destruct (bool_decide _); reflexivity.
  - rewrite bool_decide_false by (intros [? _]; contradiction).
    rewrite lookup_alter_ne by exact Hn. reflexivity.
Qed.

Lemma recordOf_foldr (l : list (string * Z * LabelValues)) (b : Exporter)
    (metricName : string) (hash : Z) :
  recordOf (foldr (visit validValue now) b l) metricName hash
  = if existsb (staleAt now metricName hash) l then None
    else recordOf b metricName hash.
Proof.
  induction l as [|t l IH]; [reflexivity|].
  cbn [foldr existsb]. rewrite recordOf_visit, IH.
  destruct (staleAt now metricName hash t); reflexivity.
Qed.

Lemma containerDelete_names {O} (n : string) (labels : Labels)
    (Elements : gmap string (Vec O)) (metricName : string) :
  vecLabelNames <$> containerDelete validValue n labels Elements !! metricName
  = vecLabelNames <$> Elements !! metricName.
Proof.
  unfold containerDelete. destruct (Elements !! n) as [vec|] eqn:Hvec; [|reflexivity].
  destruct (decide (n = metricName)) as [<-|Hne].
  - rewrite lookup_insert_eq, Hvec. simpl. unfold vecDelete.
    destruct (labelsFit validValue (vecLabelNames vec) labels); reflexivity.
  - rewrite lookup_insert_ne by exact Hne. reflexivity.
Qed.

Lemma containerDelete_child {O} (n : string) (labels : Labels)
    (Elements : gmap string (Vec O)) (metricName : string) (vec : Vec O)
    (key : list string) :
  Elements !! metricName = Some vec ->
  childOf (containerDelete validValue n labels Elements) metricName key
  = if bool_decide (n = metricName)
       && labelsFit validValue (vecLabelNames vec) labels
       && bool_decide (childKey (vecLabelNames vec) labels = key)
    then None else childOf Elements metricName key.
Proof.
  intros Hvec. unfold containerDelete, childOf.
  destruct (decide (n = metricName)) as [->|Hne].
  - rewrite Hvec, lookup_insert_eq, bool_decide_true by reflexivity. simpl.
    unfold vecDelete.
    destruct (labelsFit validValue (vecLabelNames vec) labels); [|reflexivity].
    simpl. destruct (decide (childKey (vecLabelNames vec) labels = key)) as [Hk|Hk].
    + rewrite bool_decide_true by exact Hk. rewrite Hk. apply lookup_delete_eq.
    + rewrite bool_decide_false by exact Hk. apply lookup_delete_ne. exact Hk.
  - rewrite bool_decide_false by exact Hne. simpl.
    destruct (Elements !! n); [|reflexivity].
    rewrite lookup_insert_ne by exact Hne. reflexivity.
Qed.

Lemma deleteIfStale_names {O} (l : list (string * Z * LabelValues))
    (Elements : gmap string (Vec O)) (metricName : string) :
  vecLabelNames <$> foldr (deleteIfStale validValue now) Elements l !! metricName
  = vecLabelNames <$> Elements !! metricName.
Proof.
  induction l as [|t l IH]; [reflexivity|].
  cbn [foldr]. unfold deleteIfStale at 1.
  destruct (stale now t.2); [rewrite containerDelete_names|]; exact IH.
Qed.

Lemma deleteIfStale_child {O} (l : list (string * Z * LabelValues))
    (Elements : gmap string (Vec O)) (metricName : string) (vec : Vec O)
    (key : list string) :
  Elements !! metricName = Some vec ->
  childOf (foldr (deleteIfStale validValue now) Elements l) metricName key
  = if existsb (namesChild validValue now metricName (vecLabelNames vec) key) l
    then None else childOf Elements metricName key.
Proof.
  intros Hvec. induction l as [|t l IH]; [reflexivity|].
  cbn [foldr existsb]. unfold deleteIfStale at 1, namesChild at 1.
  destruct (stale now t.2); cbn [andb]; [|exact IH].
  pose proof (deleteIfStale_names l Elements metricName) as Hnames.
  rewrite Hvec in Hnames.
  destruct (foldr (deleteIfStale validValue now) Elements l !! metricName)
    as [vec'|] eqn:Hvec'; [|discriminate Hnames].
  injection Hnames as Hnames.
  rewrite (containerDelete_child _ _ _ _ vec' key Hvec'), Hnames, IH.
  destruct (bool_decide (t.1.1 = metricName)
            && labelsFit validValue (vecLabelNames vec) (lvLabels t.2)
            && bool_decide (childKey (vecLabelNames vec) (lvLabels t.2) = key));
    reflexivity.
Qed.

End StaleLoop.

Section StaleTheorem.

Variable validValue : string -> bool.
Variable now : Z.

(** One container after the loops: the children that stale records name are
    gone, the others are as before. *)
Lemma stale_container {O} (Elements : gmap string (Vec O)) (b : Exporter)
    (l : list (string * Z * LabelValues)) :
  (forall n h lvs, (n, h, lvs) ∈ l <-> recordOf b n h = Some lvs) ->
  (forall metricName hash lvs,
     recordOf b metricName hash = Some lvs -> stale now lvs = true ->
     childGone validValue (foldr (deleteIfStale validValue now) Elements l)
       metricName (lvLabels lvs))
  /\ (forall metricName key,
        keptChild validValue now b Elements metricName key ->
        childOf (foldr (deleteIfStale validValue now) Elements l) metricName key
        = childOf Elements metricName key).
Proof.
  intros Hl. split.
  - intros metricName hash lvs Hrec Hstale vec' Hvec' Hfit.
    pose proof (deleteIfStale_names validValue now l Elements metricName) as Hnames.
    rewrite Hvec' in Hnames.
    destruct (Elements !! metricName) as [vec|] eqn:Hvec; [|discriminate Hnames].
    injection Hnames as Hnames.
    pose proof (deleteIfStale_child validValue now l Elements metricName vec
                  (childKey (vecLabelNames vec') (lvLabels lvs)) Hvec) as Hchild.
    unfold childOf at 1 in Hchild. rewrite Hvec' in Hchild. simpl in Hchild.
    rewrite Hchild.
    assert (Hex : existsb (namesChild validValue now metricName (vecLabelNames vec)
                             (childKey (vecLabelNames vec') (lvLabels lvs))) l = true).
    { apply existsb_exists. exists (metricName, hash, lvs). split.
      - apply list_elem_of_In, Hl, Hrec.
      - unfold namesChild. cbn [fst snd]. rewrite Hstale, <- Hnames, Hfit.
        rewrite !bool_decide_true by reflexivity. reflexivity. }
    rewrite Hex. reflexivity.
  - intros metricName key Hkept.
    destruct (Elements !! metricName) as [vec|] eqn:Hvec.
    + rewrite (deleteIfStale_child validValue now l Elements metricName vec key Hvec).
      destruct (existsb _ l) eqn:Hex; [|reflexivity].
      apply existsb_exists in Hex as ([[n h] lvs] & Hin & Hhit).
      unfold namesChild in Hhit. cbn [fst snd] in Hhit.
      apply andb_prop in Hhit as [Hhit Hkey]. apply andb_prop in Hhit as [Hhit Hfit].
      apply andb_prop in Hhit as [Hstale Hn].
      apply bool_decide_eq_true in Hn, Hkey. subst n.
      apply list_elem_of_In, Hl in Hin.
      destruct (Hkept vec h lvs Hvec Hin Hstale Hfit Hkey).
    + pose proof (deleteIfStale_names validValue now l Elements metricName) as Hnames.
      rewrite Hvec in Hnames. unfold childOf. rewrite Hvec.
      destruct (foldr _ Elements l !! metricName); [discriminate Hnames|reflexivity].
Qed.

(** C4 (as the code has it): on a tick [removeStaleMetrics] removes the
    records that are stale (TTL not zero and last update plus TTL before now)
    and no other; a record whose TTL is zero stays.  For each record removed,
    the child with its labels is gone from the family of that name in all
    four containers; every child that no stale record names is as before, and
    so are the registry and the self-instrumentation.  This holds in whatever
    order the records are visited; [removeStaleMetrics] is the visit in the
    order of [recordsList]. *)
Theorem removeStaleMetrics_exact (b : Exporter)
    (order : list (string * Z * LabelValues)) :
  order ≡ₚ recordsList (labelValues b) ->
  let b' := removeStaleMetricsIn validValue now order b in
  removeStaleMetrics validValue now b
  = removeStaleMetricsIn validValue now (recordsList (labelValues b)) b
  /\ (forall metricName hash,
        recordOf b' metricName hash
        = recordOf b metricName hash
            ≫= fun lvs => if stale now lvs then None else Some lvs)
  /\ (forall metricName hash lvs,
        recordOf b metricName hash = Some lvs -> ttl lvs = 0 ->
        recordOf b' metricName hash = Some lvs)
  /\ (forall metricName hash lvs,
        recordOf b metricName hash = Some lvs -> 0 < ttl lvs ->
        (recordOf b' metricName hash = None
         <-> lastRegisteredAt lvs + ttl lvs < now))
  /\ (forall metricName hash lvs,
        recordOf b metricName hash = Some lvs -> stale now lvs = true ->
        childGone validValue (Counters b') metricName (lvLabels lvs)
        /\ childGone validValue (Gauges b') metricName (lvLabels lvs)
        /\ childGone validValue (Summaries b') metricName (lvLabels lvs)
        /\ childGone validValue (Histograms b') metricName (lvLabels lvs))
  /\ (forall metricName key,
        (keptChild validValue now b (Counters b) metricName key ->
         childOf (Counters b') metricName key = childOf (Counters b) metricName key)
        /\ (keptChild validValue now b (Gauges b) metricName key ->
            childOf (Gauges b') metricName key = childOf (Gauges b) metricName key)
        /\ (keptChild validValue now b (Summaries b) metricName key ->
            childOf (Summaries b') metricName key
            = childOf (Summaries b) metricName key)
        /\ (keptChild validValue now b (Histograms b) metricName key ->
            childOf (Histograms b') metricName key
            = childOf (Histograms b) metricName key))
  /\ registry b' = registry b /\ stats b' = stats b.
Proof.
  intros Horder b'. subst b'. unfold removeStaleMetricsIn.
  split; [apply removeStaleMetrics_foldr|].
  set (l := order).
  assert (Hl : forall n h lvs, (n, h, lvs) ∈ l <-> recordOf b n h = Some lvs).
  { intros n h lvs. subst l. rewrite Horder. apply elem_of_recordsList_recordOf. }
  assert (Hrecords : forall metricName hash,
    recordOf (foldr (visit validValue now) b l) metricName hash
    = recordOf b metricName hash
        ≫= fun lvs => if stale now lvs then None else Some lvs).
  { intros metricName hash. rewrite recordOf_foldr.
    destruct (recordOf b metricName hash) as [lvs|] eqn:Hrec; simpl.
    - destruct (stale now lvs) eqn:Hstale.
      + assert (Hex : existsb (staleAt now metricName hash) l = true).
        { apply existsb_exists. exists (metricName, hash, lvs). split.
          - apply list_elem_of_In, Hl, Hrec.
          - unfold staleAt. cbn [fst snd]. rewrite Hstale.
            apply bool_decide_eq_true. split; reflexivity. }
        rewrite Hex. reflexivity.
      + destruct (existsb (staleAt now metricName hash) l) eqn:Hex; [|reflexivity].
        apply existsb_exists in Hex as ([[n h] lvs'] & Hin & Hhit).
        unfold staleAt in Hhit. cbn [fst snd] in Hhit.
        apply andb_prop in Hhit as [Hstale' Hnh].
        apply bool_decide_eq_true in Hnh as [-> ->].
        apply list_elem_of_In, Hl in Hin. rewrite Hrec in Hin.
        injection Hin as ->. congruence.
    - destruct (existsb _ l); reflexivity. }
  destruct (visit_container validValue now l b) as (Hc & Hg & Hs & Hh).
  destruct (visit_frame validValue now l b) as (Hreg & Hstats).
  split; [exact Hrecords|].
  split.
  { intros metricName hash lvs Hrec Httl. rewrite Hrecords, Hrec. simpl.
    unfold stale. rewrite Httl. reflexivity. }
  split.
  { intros metricName hash lvs Hrec Httl. rewrite Hrecords, Hrec. simpl.
    unfold stale, time.Before, time.Add.
    replace (ttl lvs =? 0) with false by (symmetry; apply Z.eqb_neq; lia).
    cbn [negb andb].
    destruct (lastRegisteredAt lvs + ttl lvs <? now) eqn:Hlt.
    - apply Z.ltb_lt in Hlt. split; [intros _; exact Hlt | reflexivity].
    - apply Z.ltb_ge in Hlt. split; [discriminate | lia]. }
  split.
  { intros metricName hash lvs Hrec Hstale. rewrite Hc, Hg, Hs, Hh.
    repeat split;
      apply (proj1 (stale_container _ b l Hl) metricName hash lvs Hrec Hstale). }
  split.
  { intros metricName key. rewrite Hc, Hg, Hs, Hh.
    repeat split; apply (proj2 (stale_container _ b l Hl) metricName key). }
  split; assumption.
Qed.

End StaleTheorem.

(** C4 (as stated) fails for a record whose TTL is negative: the TTL is not
    strictly positive, and the record is removed on the tick. *)
Lemma removeStaleMetrics_negative_ttl :
  recordOf negativeTtl "m" 7 = Some (mkLabelValues 100 ∅ (-1))
  /\ recordOf (removeStaleMetrics anyValue 100 negativeTtl) "m" 7 = None.
Proof. split; vm_compute; reflexivity. Qed.

Lemma removeStaleMetrics_exact_witness :
  recordOf (removeStaleMetrics anyValue 111 expiringFoo) "foo"
    (hashNameAndLabels noSignature "foo" ∅) = None
  /\ childGone anyValue (Counters (removeStaleMetrics anyValue 111 expiringFoo))
       "foo" ∅.
Proof.
  destruct (removeStaleMetrics_exact anyValue 111 expiringFoo
              (recordsList (labelValues expiringFoo)))
    as (Hsame & _ & _ & Hpositive & Hgone & _); [reflexivity|].
  rewrite Hsame. split.
  - apply (Hpositive "foo" (hashNameAndLabels noSignature "foo" ∅)
             (mkLabelValues 100 ∅ 10)).
    + vm_compute. reflexivity.
    + vm_compute. reflexivity.
    + vm_compute. reflexivity.
  - apply (Hgone "foo" (hashNameAndLabels noSignature "foo" ∅)
             (mkLabelValues 100 ∅ 10)).
    + vm_compute. reflexivity.
    + vm_compute. reflexivity.
Defined.

(** The child was there before the tick. *)
Example expiringFoo_child :
  childOf (Counters expiringFoo) "foo" [] = Some [OpAdd float64.one]
  /\ childOf (Counters (removeStaleMetrics anyValue 111 expiringFoo)) "foo" [] = None
  /\ childOf (Counters (removeStaleMetrics anyValue 110 expiringFoo)) "foo" []
     = Some [OpAdd float64.one].
Proof. repeat split; vm_compute; reflexivity. Qed.

(** * Further properties of the code *)

(** ** escapeMetricName *)

Lemma escapeMetricName_valid (n m : string) :
  escapeMetricName n = Some m -> validName m = true.
Proof.
  destruct n as [|c r]; [discriminate|]. unfold escapeMetricName.
  intros [= <-]. destruct (isDigit c) eqn:Hd.
  - pose proof (ReplaceAllIllegal_head "_" (String c r)
                  (String.length (String c r)) eq_refl) as Hh.
    pose proof (ReplaceAllIllegal_legal (S (String.length (String c r)))
                  (String "_" (String c r))) as Hl.
    change (String.length (String "_" (String c r)))
      with (S (String.length (String c r))).
    destruct (ReplaceAllIllegal _ _); [contradiction|].
    unfold validName. rewrite Hh, Hl. reflexivity.
  - pose proof (ReplaceAllIllegal_head c r (String.length r) Hd) as Hh.
    pose proof (ReplaceAllIllegal_legal (S (String.length r)) (String c r)) as Hl.
    change (String.length (String c r)) with (S (String.length r)).
    destruct (ReplaceAllIllegal _ _); [contradiction|].
    unfold validName. rewrite Hh, Hl. reflexivity.
Qed.

(** X1: [escapeMetricName] panics on the empty name only, and what it
    returns is a name of the class [[a-zA-Z_][a-zA-Z0-9_]*]: not empty, every
    byte a letter, a digit or an underscore, the first byte no digit. *)
Theorem escapeMetricName_legal (n : string) :
  match escapeMetricName n with
  | Some m => validName m = true
  | None => n = EmptyString
  end.
Proof.
  destruct (escapeMetricName n) as [m|] eqn:E.
  - exact (escapeMetricName_valid n m E).
  - destruct n; [reflexivity | discriminate].
Qed.

(** X2: the names that [escapeMetricName] returns unchanged are exactly the
    names of the class [[a-zA-Z_][a-zA-Z0-9_]*]. *)
Theorem escapeMetricName_fixed_iff (n : string) :
  escapeMetricName n = Some n <-> validName n = true.
Proof.
  split; [apply escapeMetricName_valid|].
  destruct n as [|c r]; [discriminate|]. unfold validName.
  intros H. apply andb_prop in H as [Hd Hl]. apply negb_true_iff in Hd.
  apply escapeMetricName_fixed; assumption.
Qed.

(** X3: on a name of ASCII bytes the sanitizer works byte by byte: an
    underscore is put in front of a leading digit, every byte outside the class
    becomes one underscore and every other byte stays where it is. *)
Theorem escapeMetricName_ascii (n : string) :
  n <> EmptyString -> allASCII n = true ->
  escapeMetricName n = Some (sanitize_bytewise n).
Proof.
  destruct n as [|c r]; [congruence|]. intros _ Ha.
  unfold escapeMetricName, sanitize_bytewise. f_equal.
  destruct (isDigit c); apply ReplaceAllIllegal_ascii; try lia; try exact Ha.
Qed.

Lemma escapeMetricName_ascii_witness :
  escapeMetricName "1.a-b" = Some (sanitize_bytewise "1.a-b").
Proof.
  apply (escapeMetricName_ascii "1.a-b"); [discriminate | vm_compute; reflexivity].
Defined.

(** ** parseDogStatsDTagsToLabels *)

Lemma SplitN2_cases (s : string) (sep : ascii) :
  (lacks sep s /\ strings.SplitN2 s sep = [s])
  \/ exists k v, s = k +:+ String sep v /\ lacks sep k
                 /\ strings.SplitN2 s sep = [k; v].
Proof.
  induction s as [|c r IH]; simpl.
  - left. split; [exact I | reflexivity].
  - destruct (Ascii.eqb c sep) eqn:Hc.
    + apply Ascii.eqb_eq in Hc. subst c. right. exists EmptyString, r.
      repeat split; reflexivity.
    + apply Ascii.eqb_neq in Hc.
      destruct IH as [[Hl ->] | (k & v & -> & Hk & ->)].
      * left. repeat split; assumption.
      * right. exists (String c k), v. repeat split; assumption.
Qed.

Lemma len_zero_iff (s : string) : (len s =? 0) = true <-> s = EmptyString.
Proof.
  unfold len. destruct s; simpl; split; try reflexivity; discriminate.
Qed.

(** What one turn of the loop over the tags does, by the shape of the tag. *)
Lemma tagsLoop_cons (t : string) (tags : list string) (labels : Labels) :
  tagsLoop (t :: tags) labels
  = match strings.SplitN2 (strings.TrimPrefix t "#") ":" with
    | [k; v] =>
        if len v =? 0 then
          '(labels', log) ← tagsLoop tags labels; Some (labels', tagErrors :: log)
        else k' ← escapeMetricName k; tagsLoop tags (<[k' := v]> labels)
    | _ => '(labels', log) ← tagsLoop tags labels; Some (labels', tagErrors :: log)
    end.
Proof. reflexivity. Qed.

Lemma emptyTagName_split (t : string) :
  match strings.SplitN2 (strings.TrimPrefix t "#") ":" with
  | [k; v] =>
      if len v =? 0 then emptyTagName t = false
      else emptyTagName t = true <-> k = EmptyString
  | _ => emptyTagName t = false
  end.
Proof.
  unfold emptyTagName.
  destruct (SplitN2_cases (strings.TrimPrefix t "#") ":")
    as [[Hl ->] | (k & v & -> & Hk & ->)].
  - destruct (strings.TrimPrefix t "#") as [|c [|c' r]]; try reflexivity.
    destruct Hl as [Hc _]. apply Ascii.eqb_neq. exact Hc.
  - destruct (len v =? 0) eqn:Hv.
    + apply len_zero_iff in Hv. subst v.
      destruct k as [|c k]; [reflexivity|]. destruct Hk as [Hc _].
      change (String c k +:+ ":") with (String c (k +:+ ":")).
      destruct (k +:+ ":"); [reflexivity|]. apply Ascii.eqb_neq. exact Hc.
    + assert (v <> EmptyString) as Hne.
      { intros ->. discriminate. }
      destruct k as [|c k].
      * destruct v; [congruence|]. cbn. tauto.
      * destruct Hk as [Hc _].
        change (String c k +:+ String ":" v) with (String c (k +:+ String ":" v)).
        apply Ascii.eqb_neq in Hc.
        destruct (k +:+ String ":" v); [|rewrite Hc]; split; congruence.
Qed.

Lemma tagsLoop_panics (tags : list string) :
  forall labels,
    tagsLoop tags labels = None <-> existsb emptyTagName tags = true.
Proof.
  induction tags as [|t tags IH]; intros labels.
  - simpl. split; discriminate.
  - rewrite tagsLoop_cons. cbn [existsb]. rewrite orb_true_iff.
    pose proof (emptyTagName_split t) as Ht.
    assert (Hskip :
      emptyTagName t = false ->
      (('(labels', log) ← tagsLoop tags labels; Some (labels', tagErrors :: log))
       = None <-> emptyTagName t = true \/ existsb emptyTagName tags = true)).
    { intros ->. rewrite <- (IH labels).
      destruct (tagsLoop tags labels) as [[? ?]|]; cbn; split;
        try discriminate; try tauto; intros [?|?]; discriminate. }
    destruct (strings.SplitN2 (strings.TrimPrefix t "#") ":")
      as [|k [|v [|? ?]]]; try (apply Hskip; exact Ht).
    destruct (len v =? 0); [apply Hskip; exact Ht|].
    destruct k as [|c k].
    + cbn. split; [intros _; left; apply Ht; reflexivity | reflexivity].
    + destruct (escapeMetricName (String c k)) as [k'|] eqn:Hk; [|discriminate].
      cbn [mbind option_bind]. rewrite IH.
      split; [tauto|]. intros [H|H]; [|exact H].
      apply Ht in H. discriminate.
Qed.

(** X4: [parseDogStatsDTagsToLabels] panics (the index [metricName[0]] of
    [escapeMetricName] is out of range) exactly when one of the tags between
    the commas has an empty name before a value that is not empty, as in
    [#:v] or [#a:b,:v]. *)
Theorem parseDogStatsDTagsToLabels_panics (component : string) :
  parseDogStatsDTagsToLabels component = None
  <-> existsb emptyTagName (strings.Split component ",") = true.
Proof.
  unfold parseDogStatsDTagsToLabels. rewrite <- (tagsLoop_panics _ ∅).
  destruct (tagsLoop (strings.Split component ",") ∅) as [[? ?]|]; cbn;
    split; congruence.
Qed.

Lemma Split_Forall_lacks (s : string) (sep : ascii) :
  Forall (lacks sep) (strings.Split s sep).
Proof.
  induction s as [|c r IH]; simpl.
  - constructor; [exact I | constructor].
  - destruct (Ascii.eqb c sep) eqn:Hc.
    + constructor; [exact I | exact IH].
    + apply Ascii.eqb_neq in Hc.
      destruct (strings.Split r sep) as [|h t].
      * constructor; [split; [exact Hc | exact I] | constructor].
      * inversion IH; subst. constructor; [split; assumption | assumption].
Qed.

Lemma lacks_skip (c : ascii) (n : nat) (s : string) :
  lacks c s -> lacks c (skip n s).
Proof.
  revert s. induction n as [|n IH]; intros [|a r]; simpl; try tauto.
  intros [_ H]. apply IH. exact H.
Qed.

Lemma lacks_TrimPrefix (c : ascii) (s prefix : string) :
  lacks c s -> lacks c (strings.TrimPrefix s prefix).
Proof.
  intros H. unfold strings.TrimPrefix.
  destruct (strings.HasPrefix s prefix); [apply lacks_skip|]; exact H.
Qed.

Lemma tagsLoop_entries (P : string -> string -> Prop) (tags : list string) :
  (forall t k k' v,
     In t tags -> strings.SplitN2 (strings.TrimPrefix t "#") ":" = [k; v] ->
     (len v =? 0) = false -> escapeMetricName k = Some k' -> P k' v) ->
  forall labels labels' log,
    map_Forall P labels ->
    tagsLoop tags labels = Some (labels', log) ->
    map_Forall P labels'.
Proof.
  induction tags as [|t tags IH]; intros Hstep labels labels' log HP.
  - intros [= <- _]. exact HP.
  - rewrite tagsLoop_cons.
    assert (Hrest : forall t' k k' v,
              In t' tags ->
              strings.SplitN2 (strings.TrimPrefix t' "#") ":" = [k; v] ->
              (len v =? 0) = false -> escapeMetricName k = Some k' -> P k' v).
    { intros t' k k' v Hin. apply Hstep. right. exact Hin. }
    assert (Hskip :
      ('(labels', log) ← tagsLoop tags labels; Some (labels', tagErrors :: log))
      = Some (labels', log) -> map_Forall P labels').
    { destruct (tagsLoop tags labels) as [[l1 g1]|] eqn:E; [|discriminate].
      cbn. intros [= <- _]. exact (IH Hrest _ _ _ HP E). }
    destruct (strings.SplitN2 (strings.TrimPrefix t "#") ":")
      as [|k [|v [|? ?]]] eqn:Hkv; try exact Hskip.
    destruct (len v =? 0) eqn:Hv; [exact Hskip|].
    destruct (escapeMetricName k) as [k'|] eqn:Hk; [|discriminate].
    cbn [mbind option_bind]. apply (IH Hrest).
    apply map_Forall_insert_2; [|exact HP].
    apply (Hstep t k k' v); [left; reflexivity | assumption..].
Qed.

(** X5: every label that [parseDogStatsDTagsToLabels] returns has a name of
    the class [[a-zA-Z_][a-zA-Z0-9_]*] and a value that is not empty and holds
    no comma. *)
Theorem parseDogStatsDTagsToLabels_entries (component : string)
    (labels : Labels) (log : list Stat) :
  parseDogStatsDTagsToLabels component = Some (labels, log) ->
  map_Forall (fun k v => validName k = true /\ v <> EmptyString /\ lacks "," v)
             labels.
Proof.
  unfold parseDogStatsDTagsToLabels.
  destruct (tagsLoop (strings.Split component ",") ∅) as [[l g]|] eqn:E;
    [|discriminate].
  cbn. intros [= <- _].
  refine (tagsLoop_entries _ _ _ ∅ l g _ E); [|apply map_Forall_empty].
  intros t k k' v Hin Hkv Hv Hk. split; [|split].
  - exact (escapeMetricName_valid k k' Hk).
  - intros ->. discriminate.
  - pose proof (Split_Forall_lacks component ",") as Hall.
    rewrite Forall_forall in Hall. apply list_elem_of_In in Hin.
    specialize (Hall t Hin).
    apply (lacks_TrimPrefix _ _ "#") in Hall.
    destruct (SplitN2_cases (strings.TrimPrefix t "#") ":")
      as [[_ Hs] | (k0 & v0 & Heq & _ & Hs)]; rewrite Hs in Hkv.
    + discriminate.
    + injection Hkv as <- <-. rewrite Heq in Hall.
      apply lacks_app in Hall as [_ [_ Hall]]. exact Hall.
Qed.

Lemma parseDogStatsDTagsToLabels_entries_witness :
  map_Forall (fun k v => validName k = true /\ v <> EmptyString /\ lacks "," v)
             (<["_9tag" := "b:c"]> (∅ : Labels)).
Proof.
  apply (parseDogStatsDTagsToLabels_entries "#9tag:b:c,,x:" _ 
           [tagsReceived; tagErrors; tagErrors]).
  vm_compute. reflexivity.
Defined.

Lemma afterColon_SplitN2 (s : string) :
  afterColon s
  = match strings.SplitN2 s ":" with
    | [_; v] => Some v
    | _ => None
    end.
Proof.
  induction s as [|c r IH]; [reflexivity|]. cbn [afterColon strings.SplitN2].
  destruct (Ascii.eqb c ":"); [reflexivity|]. rewrite IH.
  destruct (strings.SplitN2 r ":") as [|h [|v [|? ?]]]; reflexivity.
Qed.

Lemma skippedTag_split (t : string) :
  skippedTag t
  = match strings.SplitN2 (strings.TrimPrefix t "#") ":" with
    | [_; v] => len v =? 0
    | _ => true
    end.
Proof.
  unfold skippedTag. rewrite afterColon_SplitN2.
  destruct (strings.SplitN2 (strings.TrimPrefix t "#") ":") as [|k [|v [|? ?]]];
    try reflexivity.
  destruct v; reflexivity.
Qed.

Lemma tagsLoop_counts (tags : list string) :
  forall labels labels' log,
    tagsLoop tags labels = Some (labels', log) ->
    log = replicate (length (List.filter skippedTag tags)) tagErrors
    /\ (size labels' + length (List.filter skippedTag tags)
        <= size labels + length tags)%nat.
Proof.
  induction tags as [|t tags IH]; intros labels labels' log.
  - intros [= <- <-]. split; [reflexivity | simpl; lia].
  - rewrite tagsLoop_cons. cbn [List.filter]. rewrite (skippedTag_split t).
    assert (Hskip :
      ('(labels', log) ← tagsLoop tags labels; Some (labels', tagErrors :: log))
      = Some (labels', log) ->
      log = replicate (length (t :: List.filter skippedTag tags)) tagErrors
      /\ (size labels' + length (t :: List.filter skippedTag tags)
          <= size labels + length (t :: tags))%nat).
    { destruct (tagsLoop tags labels) as [[l1 g1]|] eqn:E; [|discriminate].
      cbn. intros [= <- <-]. destruct (IH _ _ _ E) as (-> & Hn).
      split; [reflexivity | simpl; lia]. }
    destruct (strings.SplitN2 (strings.TrimPrefix t "#") ":")
      as [|k [|v [|? ?]]] eqn:Hkv; try exact Hskip.
    destruct (len v =? 0) eqn:Hv; [exact Hskip|].
    destruct (escapeMetricName k) as [k'|] eqn:Hk; [|discriminate].
    cbn [mbind option_bind]. intros E.
    destruct (IH _ _ _ E) as (-> & Hn). split; [reflexivity|].
    rewrite map_size_insert in Hn.
    destruct (labels !! k'); simpl in *; lia.
Qed.

Lemma parseDogStatsDTagsToLabels_counters_aux (component : string)
    (labels : Labels) (log : list Stat) :
  parseDogStatsDTagsToLabels component = Some (labels, log) ->
  exists n, log = tagsReceived :: replicate n tagErrors.
Proof.
  unfold parseDogStatsDTagsToLabels.
  destruct (tagsLoop (strings.Split component ",") ∅) as [[l g]|] eqn:E;
    [|discriminate].
  cbn. intros [= <- <-]. destruct (tagsLoop_counts _ _ _ _ E) as (-> & Hn).
  eexists. reflexivity.
Qed.

(** X6: a call of [parseDogStatsDTagsToLabels] that returns has incremented
    [tagsReceived] once and then [tagErrors] once for each tag it skipped: the
    tags between the commas that, after the optional [#], have no colon or
    nothing after their first colon.  It has incremented nothing else, and
    the labels it returns are no more than the other tags. *)
Theorem parseDogStatsDTagsToLabels_counters (component : string)
    (labels : Labels) (log : list Stat) :
  parseDogStatsDTagsToLabels component = Some (labels, log) ->
  log = tagsReceived
        :: replicate
             (length (List.filter skippedTag (strings.Split component ",")))
             tagErrors
  /\ (size labels
      + length (List.filter skippedTag (strings.Split component ","))
      <= length (strings.Split component ","))%nat.
Proof.
  unfold parseDogStatsDTagsToLabels.
  destruct (tagsLoop (strings.Split component ",") ∅) as [[l g]|] eqn:E;
    [|discriminate].
  cbn. intros [= <- <-]. destruct (tagsLoop_counts _ _ _ _ E) as (-> & Hn).
  split; [reflexivity|]. rewrite map_size_empty in Hn. lia.
Qed.

Lemma parseDogStatsDTagsToLabels_counters_witness :
  [tagsReceived; tagErrors; tagErrors]
  = tagsReceived
    :: replicate
         (length (List.filter skippedTag (strings.Split "#a:1,,x:,a:2" ",")))
         tagErrors
  /\ (size (<["a" := "2"]> (∅ : Labels))
      + length (List.filter skippedTag (strings.Split "#a:1,,x:,a:2" ","))
      <= length (strings.Split "#a:1,,x:,a:2" ","))%nat.
Proof.
  apply (parseDogStatsDTagsToLabels_counters "#a:1,,x:,a:2").
  vm_compute. reflexivity.
Defined.

Lemma Split_append (a b : string) (sep : ascii) :
  strings.Split (a +:+ String sep b) sep
  = strings.Split a sep ++ strings.Split b sep.
Proof.
  induction a as [|c a IH].
  - simpl. rewrite Ascii.eqb_refl. reflexivity.
  - change (String c a +:+ String sep b) with (String c (a +:+ String sep b)).
    cbn [strings.Split]. rewrite IH.
    pose proof (Split_nonempty a sep) as Hne.
    destruct (Ascii.eqb c sep); [reflexivity|].
    destruct (strings.Split a sep) as [|h t]; [congruence | reflexivity].
Qed.

Lemma tagsLoop_app (l1 l2 : list string) :
  forall labels,
    tagsLoop (l1 ++ l2) labels
    = '(labels1, log1) ← tagsLoop l1 labels;
      '(labels2, log2) ← tagsLoop l2 labels1;
      Some (labels2, log1 ++ log2).
Proof.
  induction l1 as [|t l1 IH]; intros labels.
  - cbn. destruct (tagsLoop l2 labels) as [[? ?]|]; reflexivity.
  - change ((t :: l1) ++ l2) with (t :: (l1 ++ l2)). rewrite !tagsLoop_cons.
    assert (Hskip :
      ('(labels', log) ← tagsLoop (l1 ++ l2) labels;
       Some (labels', tagErrors :: log))
      = '(labels1, log1) ←
           ('(labels', log) ← tagsLoop l1 labels; Some (labels', tagErrors :: log));
        '(labels2, log2) ← tagsLoop l2 labels1;
        Some (labels2, log1 ++ log2)).
    { rewrite IH. destruct (tagsLoop l1 labels) as [[la ga]|]; [|reflexivity].
      cbn. destruct (tagsLoop l2 la) as [[lb gb]|]; reflexivity. }
    destruct (strings.SplitN2 (strings.TrimPrefix t "#") ":")
      as [|k [|v [|? ?]]]; try exact Hskip.
    destruct (len v =? 0); [exact Hskip|].
    destruct (escapeMetricName k) as [k'|]; [|reflexivity].
    cbn [mbind option_bind]. apply IH.
Qed.

(** X7: of two tags with the same name the later one gives the label its
    value: a well-formed tag [k:v] at the end of the component is in the labels
    returned, under the sanitized name, whatever came before it. *)
Theorem parseDogStatsDTagsToLabels_last_wins (component k v k' : string)
    (labels : Labels) (log : list Stat) :
  lacks "," k -> lacks ":" k -> strings.HasPrefix k "#" = false ->
  lacks "," v -> v <> EmptyString ->
  escapeMetricName k = Some k' ->
  parseDogStatsDTagsToLabels (component +:+ String "," (k +:+ String ":" v))
  = Some (labels, log) ->
  labels !! k' = Some v.
Proof.
  intros Hk1 Hk2 Hk3 Hv1 Hv2 Hesc. unfold parseDogStatsDTagsToLabels.
  rewrite Split_append.
  rewrite (Split_lacks (k +:+ String ":" v) ",")
    by (apply lacks_app; split; [exact Hk1 | split; [discriminate | exact Hv1]]).
  rewrite tagsLoop_app.
  destruct (tagsLoop (strings.Split component ",") ∅) as [[l1 g1]|];
    [|discriminate].
  cbn [mbind option_bind]. rewrite tagsLoop_cons.
  assert (strings.TrimPrefix (k +:+ String ":" v) "#" = k +:+ String ":" v) as ->.
  { unfold strings.TrimPrefix. destruct k as [|c k]; [reflexivity|].
    change (String c k +:+ String ":" v) with (String c (k +:+ String ":" v)).
    cbn in Hk3 |- *. rewrite andb_true_r in Hk3 |- *. rewrite Hk3. reflexivity. }
  rewrite SplitN2_app by exact Hk2.
  assert ((len v =? 0) = false) as ->.
  { destruct (len v =? 0) eqn:E; [|reflexivity].
    apply len_zero_iff in E. congruence. }
  rewrite Hesc. cbn. intros [= <- _]. apply lookup_insert_eq.
Qed.

Lemma parseDogStatsDTagsToLabels_last_wins_witness :
  (<["env" := "prod"]> (∅ : Labels)) !! "env" = Some "prod".
Proof.
  apply (parseDogStatsDTagsToLabels_last_wins "#env:dev" "env" "prod" "env" _
           [tagsReceived]);
    try (vm_compute; reflexivity); try discriminate.
  repeat split; discriminate.
  repeat split; discriminate.
  repeat split; discriminate.
Defined.

(** ** The parser: what every line keeps *)

Lemma incs_none (P : Stat -> bool) (s : Stat) (log : list Stat) :
  forallb P log = true -> P s = false -> incs s log = 0%nat.
Proof.
  intros Hall Hs. induction log as [|t log IH]; [reflexivity|].
  cbn [forallb] in Hall. apply andb_prop in Hall as [Ht Hall].
  change (t :: log) with ([t] ++ log). rewrite incs_app, (IH Hall).
  rewrite incs_other; [reflexivity|]. intros ->. congruence.
Qed.

Lemma emitLoop_eq (n : nat) (T metric : string) (x : spec_float)
    (relative : bool) (l : Labels) :
  emitLoop n T metric x relative l
  = match buildEvent T metric x relative l with
    | inl e => (repeat e n, [])
    | inr _ => ([], repeat (sampleErrors "illegal_event") n)
    end.
Proof.
  induction n as [|n IH]; simpl.
  - destruct (buildEvent T metric x relative l); reflexivity.
  - rewrite IH. destruct (buildEvent T metric x relative l); reflexivity.
Qed.

Lemma buildEvent_fields (T metric : string) (x : spec_float) (relative : bool)
    (l : Labels) (e : Event) :
  buildEvent T metric x relative l = inl e ->
  MetricName e = metric /\ Value e = x /\ EventLabels e = l.
Proof.
  unfold buildEvent.
  repeat match goal with
         | |- context [if ?b then _ else _] => destruct b
         end; intros [= <-]; repeat split.
Qed.

Lemma forallb_repeat {A} (P : A -> bool) (a : A) (n : nat) :
  P a = true -> forallb P (repeat a n) = true.
Proof. intros H. induction n; simpl; [reflexivity | rewrite H; assumption]. Qed.

Lemma forallb_replicate {A} (P : A -> bool) (a : A) (n : nat) :
  P a = true -> forallb P (replicate n a) = true.
Proof. intros H. induction n; simpl; [reflexivity | rewrite H; assumption]. Qed.

Section ParserInvariants.

Variable ParseFloat : string -> spec_float * bool.

Lemma componentStep_log (T component : string) (v v' : SampleVars)
    (log : list Stat) :
  componentStep ParseFloat T component v = Some (v', log) ->
  forallb sampleStat log = true.
Proof.
  unfold componentStep. destruct component as [|c0 r]; [discriminate|].
  destruct (Ascii.eqb c0 "@").
  - destruct (negb (String.eqb T "c") && negb (String.eqb T "ms")).
    + intros [= _ <-]. reflexivity.
    + destruct (ParseFloat r) as [f err].
      destruct (String.eqb T "c"); [|destruct (String.eqb T "ms")];
        intros [= _ <-]; destruct err; reflexivity.
  - destruct (Ascii.eqb c0 "#"); [|intros [= _ <-]; reflexivity].
    destruct (parseDogStatsDTagsToLabels (String c0 r)) as [[l g]|] eqn:E;
      [|discriminate].
    cbn. intros [= _ <-].
    destruct (parseDogStatsDTagsToLabels_counters_aux _ _ _ E) as (n & ->).
    cbn. apply forallb_replicate. reflexivity.
Qed.

Lemma componentsLoop_log (T : string) (components : list string) :
  forall v v' log,
    componentsLoop ParseFloat T components v = Some (v', log) ->
    forallb sampleStat log = true.
Proof.
  induction components as [|c rest IH]; intros v v' log.
  - intros [= _ <-]. reflexivity.
  - cbn [componentsLoop].
    destruct (componentStep ParseFloat T c v) as [[v1 g1]|] eqn:E1; [|discriminate].
    cbn [mbind option_bind].
    destruct (componentsLoop ParseFloat T rest v1) as [[v2 g2]|] eqn:E2;
      [|discriminate].
    cbn. intros [= _ <-]. rewrite forallb_app.
    rewrite (componentStep_log _ _ _ _ _ E1), (IH _ _ _ E2). reflexivity.
Qed.

Lemma componentStep_multiply (T component : string) (v v' : SampleVars)
    (log : list Stat) :
  T <> "ms" ->
  componentStep ParseFloat T component v = Some (v', log) ->
  v_multiplyEvents v' = v_multiplyEvents v.
Proof.
  intros Hms. apply String.eqb_neq in Hms.
  unfold componentStep. destruct component as [|c0 r]; [discriminate|].
  destruct (Ascii.eqb c0 "@").
  - destruct (negb (String.eqb T "c") && negb (String.eqb T "ms")).
    + intros [= <- _]. reflexivity.
    + destruct (ParseFloat r) as [f err]. rewrite Hms.
      destruct (String.eqb T "c"); intros [= <- _]; reflexivity.
  - destruct (Ascii.eqb c0 "#"); [|intros [= <- _]; reflexivity].
    destruct (parseDogStatsDTagsToLabels (String c0 r)) as [[l g]|];
      [|discriminate].
    cbn. intros [= <- _]. reflexivity.
Qed.

Lemma componentsLoop_multiply (T : string) (components : list string) :
  T <> "ms" ->
  forall v v' log,
    componentsLoop ParseFloat T components v = Some (v', log) ->
    v_multiplyEvents v' = v_multiplyEvents v.
Proof.
  intros Hms. induction components as [|c rest IH]; intros v v' log.
  - intros [= <- _]. reflexivity.
  - cbn [componentsLoop].
    destruct (componentStep ParseFloat T c v) as [[v1 g1]|] eqn:E1; [|discriminate].
    cbn [mbind option_bind].
    destruct (componentsLoop ParseFloat T rest v1) as [[v2 g2]|] eqn:E2;
      [|discriminate].
    cbn. intros [= <- _].
    rewrite (IH _ _ _ E2). exact (componentStep_multiply _ _ _ _ _ Hms E1).
Qed.

(** What one sample gives: [samplesReceived] first, then counters of the
    sample only; copies of one event of the metric, one at most unless the
    type is [ms]. *)
Lemma sampleToEvents_shape (metric sample : string) (events : Events)
    (log : list Stat) :
  sampleToEvents ParseFloat metric sample = Some (events, log) ->
  exists log' e n,
    log = samplesReceived :: log' /\ forallb sampleStat log' = true
    /\ events = repeat e n /\ MetricName e = metric
    /\ (statTypeOf sample <> "ms" -> (n <= 1)%nat).
Proof.
  unfold sampleToEvents, statTypeOf.
  set (dummy := CounterEvent metric float64.zero ∅).
  destruct ((length (strings.Split sample "|") <? 2)%nat
            || (4 <? length (strings.Split sample "|"))%nat).
  { intros [= <- <-]. exists [sampleErrors "malformed_component"], dummy, 0%nat.
    repeat split. intros _. lia. }
  destruct (strings.Split sample "|") as [|V [|T mods]]; try discriminate.
  cbn [nth]. destruct (ParseFloat V) as [x err]. destruct err.
  { intros [= <- <-]. exists [sampleErrors "malformed_value"], dummy, 0%nat.
    repeat split. intros _. lia. }
  destruct (existsb (fun component => len component =? 0) mods).
  { intros [= <- <-]. exists [sampleErrors "malformed_component"], dummy, 0%nat.
    repeat split. intros _. lia. }
  destruct (componentsLoop ParseFloat T mods (mkVars float64.one x 1 ∅))
    as [[v g]|] eqn:E; [|discriminate].
  cbn [mbind option_bind]. rewrite emitLoop_eq.
  pose proof (componentsLoop_log _ _ _ _ _ E) as Hg.
  destruct (buildEvent T metric (v_value v) _ (v_labels v)) as [e|msg] eqn:Hb.
  - intros [= <- <-]. exists (g ++ []), e, (Z.to_nat (v_multiplyEvents v)).
    rewrite app_nil_r. repeat split; try assumption.
    + apply (buildEvent_fields _ _ _ _ _ _ Hb).
    + intros Hms. rewrite (componentsLoop_multiply _ _ Hms _ _ _ E). simpl. lia.
  - intros [= <- <-].
    exists (g ++ repeat (sampleErrors "illegal_event") (Z.to_nat (v_multiplyEvents v))),
      dummy, 0%nat.
    repeat split.
    + rewrite forallb_app, Hg. apply forallb_repeat. reflexivity.
    + intros _. lia.
Qed.

Lemma samplesLoop_shape (metric : string) (samples : list string) :
  forall events log,
    samplesLoop ParseFloat metric samples = Some (events, log) ->
    incs samplesReceived log = length samples
    /\ forallb (fun s => sampleStat s || bool_decide (s = samplesReceived)) log
       = true
    /\ Forall (fun e => MetricName e = metric) events.
Proof.
  induction samples as [|sample rest IH]; intros events log.
  - intros [= <- <-]. repeat split. constructor.
  - cbn [samplesLoop].
    destruct (sampleToEvents ParseFloat metric sample) as [[ev1 g1]|] eqn:E1;
      [|discriminate].
    cbn [mbind option_bind].
    destruct (samplesLoop ParseFloat metric rest) as [[ev2 g2]|] eqn:E2;
      [|discriminate].
    cbn. intros [= <- <-].
    destruct (IH _ _ eq_refl) as (Hn & Hall & Hev).
    destruct (sampleToEvents_shape _ _ _ _ E1) as (g & e & n & -> & Hg & -> & He & _).
    split; [|split].
    + change ((samplesReceived :: g) ++ g2) with ([samplesReceived] ++ g ++ g2).
      rewrite !incs_app, incs_one, Hn.
      rewrite (incs_none sampleStat samplesReceived g Hg eq_refl). reflexivity.
    + cbn [app forallb]. rewrite forallb_app, Hall.
      rewrite bool_decide_eq_true_2 by reflexivity. rewrite orb_true_r.
      cbn [andb]. rewrite andb_true_r.
      rewrite forallb_forall in Hg |- *. intros s Hs. rewrite (Hg s Hs). reflexivity.
    + apply Forall_app. split; [|exact Hev].
      clear -He. induction n; simpl; constructor; assumption.
Qed.

End ParserInvariants.

Lemma HasPrefix_app (a : string) (c : ascii) (r : string) :
  strings.HasPrefix (a +:+ String c r) (a +:+ String c "") = true.
Proof.
  induction a as [|x a IH]; simpl.
  - rewrite Ascii.eqb_refl. reflexivity.
  - rewrite Ascii.eqb_refl. exact IH.
Qed.

Lemma HasPrefix_head (c : ascii) (s : string) :
  strings.HasPrefix s (String c "") = true <-> exists r, s = String c r.
Proof.
  destruct s as [|a r]; simpl.
  - split; [discriminate | intros [? ?]; discriminate].
  - rewrite andb_true_r. split.
    + intros H. apply Ascii.eqb_eq in H. subst a. eauto.
    + intros [r' [= -> _]]. apply Ascii.eqb_refl.
Qed.

Section LineInvariants.

Variable ParseFloat : string -> spec_float * bool.

(** The three ways of a line through [lineToEvents]. *)
Lemma lineToEvents_cases (line : string) :
  (line = EmptyString /\ lineToEvents ParseFloat line = Some ([], []))
  \/ (line <> EmptyString
      /\ (lacks ":" line \/ strings.HasPrefix line ":" = true
          \/ utf8.ValidString line = false)
      /\ lineToEvents ParseFloat line = Some ([], [sampleErrors "malformed_line"]))
  \/ (exists metric rest,
        line = metric +:+ String ":" rest /\ metric <> EmptyString
        /\ lacks ":" metric /\ utf8.ValidString line = true
        /\ lineToEvents ParseFloat line
           = samplesLoop ParseFloat metric (samplesOf rest)).
Proof.
  destruct line as [|c0 r0]; [left; split; reflexivity|].
  right. set (line := String c0 r0).
  assert (Hne : line <> EmptyString) by discriminate.
  unfold lineToEvents. change (String.eqb line "") with false. cbv iota.
  destruct (SplitN2_cases line ":") as [[Hl ->] | (k & v & Heq & Hk & ->)].
  - left. split; [exact Hne|]. split; [left; exact Hl | reflexivity].
  - destruct k as [|ck k].
    + left. split; [exact Hne|]. split; [|reflexivity].
      right. left. rewrite Heq. reflexivity.
    + change (len (String ck k) =? 0) with false. cbn [orb].
      destruct (utf8.ValidString line) eqn:Hv; cbn [negb].
      * right. exists (String ck k), v.
        split; [exact Heq|]. split; [discriminate|]. split; [exact Hk|].
        split; reflexivity.
      * left. split; [exact Hne|]. split; [|reflexivity]. right. right. reflexivity.
Qed.

Lemma lineToEvents_log (line : string) (events : Events) (log : list Stat) :
  lineToEvents ParseFloat line = Some (events, log) ->
  forallb lineStat log = true.
Proof.
  destruct (lineToEvents_cases line)
    as [[_ ->] | [(_ & _ & ->) | (metric & rest & _ & _ & _ & _ & ->)]].
  - intros [= _ <-]. reflexivity.
  - intros [= _ <-]. reflexivity.
  - intros E. destruct (samplesLoop_shape _ _ _ _ _ E) as (_ & Hall & _).
    rewrite forallb_forall in Hall |- *. intros s Hs. unfold lineStat.
    rewrite (Hall s Hs). reflexivity.
Qed.

(** X8: every event that [lineToEvents] returns carries, as its metric
    name, the text of the line before the first colon, and that text is not
    empty: no event has an empty name. *)
Theorem lineToEvents_metric_name (line : string) (events : Events)
    (log : list Stat) :
  lineToEvents ParseFloat line = Some (events, log) ->
  Forall (fun e => MetricName e <> EmptyString /\ lacks ":" (MetricName e)
                   /\ strings.HasPrefix line (MetricName e +:+ ":") = true)
         events.
Proof.
  destruct (lineToEvents_cases line)
    as [[_ ->] | [(_ & _ & ->) | (metric & rest & -> & Hne & Hm & _ & ->)]].
  - intros [= <- _]. constructor.
  - intros [= <- _]. constructor.
  - intros E. destruct (samplesLoop_shape _ _ _ _ _ E) as (_ & _ & Hev).
    eapply Forall_impl; [exact Hev|]. cbn beta. intros e ->.
    split; [exact Hne|]. split; [exact Hm|]. apply HasPrefix_app.
Qed.

(** X9: the lines that [lineToEvents] turns away as a whole, with no event
    and the one increment of [malformed_line], are exactly the lines that are
    not empty and have no colon, or start with a colon, or are not valid
    UTF-8. *)
Theorem lineToEvents_malformed_line (line : string) :
  lineToEvents ParseFloat line = Some ([], [sampleErrors "malformed_line"])
  <-> line <> EmptyString
      /\ (lacks ":" line \/ strings.HasPrefix line ":" = true
          \/ utf8.ValidString line = false).
Proof.
  destruct (lineToEvents_cases line)
    as [[-> ->] | [(Hne & Hbad & ->) | (metric & rest & Heq & Hne & Hm & Hv & ->)]].
  - split; [discriminate | intros [H _]; congruence].
  - split; [intros _; split; assumption | reflexivity].
  - split.
    + intros E. destruct (samplesLoop_shape _ _ _ _ _ E) as (Hn & _ & _).
      unfold samplesOf in Hn. pose proof (Split_nonempty rest ":") as Hs.
      destruct (strings.Contains rest "|#"); [discriminate Hn|].
      destruct (strings.Split rest ":"); [congruence | discriminate Hn].
    + intros [_ [Hl | [Hp | Hi]]].
      * rewrite Heq in Hl. apply lacks_app in Hl as [_ [Hl _]]. congruence.
      * apply HasPrefix_head in Hp as [r Hr]. rewrite Heq in Hr.
        destruct metric as [|c m]; [congruence|].
        injection Hr as -> _. destruct Hm as [Hm _]. congruence.
      * congruence.
Qed.

End LineInvariants.

Lemma lineToEvents_metric_name_witness :
  Forall (fun e => MetricName e <> EmptyString /\ lacks ":" (MetricName e)
                   /\ strings.HasPrefix "a.b:1|c" (MetricName e +:+ ":") = true)
         [CounterEvent "a.b" float64.one ∅].
Proof.
  apply (lineToEvents_metric_name ShortDecimal.ParseFloat "a.b:1|c" _
           [samplesReceived]).
  vm_compute. reflexivity.
Defined.

Lemma Split_length (s : string) (sep : ascii) :
  length (strings.Split s sep)
  = S (length (filter (fun c => c = sep) (list_ascii_of_string s))).
Proof.
  induction s as [|c r IH]; [reflexivity|].
  cbn [strings.Split list_ascii_of_string]. rewrite filter_cons.
  pose proof (Split_nonempty r sep) as Hne.
  destruct (Ascii.eqb c sep) eqn:Hc.
  - apply Ascii.eqb_eq in Hc. subst c.
    destruct (decide (sep = sep)); [|congruence].
    simpl. rewrite IH. reflexivity.
  - apply Ascii.eqb_neq in Hc.
    destruct (decide (c = sep)); [congruence|].
    destruct (strings.Split r sep); [congruence|]. exact IH.
Qed.

Section PacketCounters.

Variable ParseFloat : string -> spec_float * bool.

(** X10: on a line [metric:rest] that is not turned away as a whole,
    [samplesReceived] is incremented once for each sample: once when the
    remainder holds the mark [|#] of the DogStatsD extension, once for each
    piece between its colons otherwise.  [malformed_line] is not incremented,
    and no event is built for more samples than there are unless a sample has
    the type [ms]. *)
Theorem lineToEvents_samplesReceived (metric rest : string) (events : Events)
    (log : list Stat) :
  metric <> EmptyString -> lacks ":" metric ->
  utf8.ValidString (metric +:+ String ":" rest) = true ->
  lineToEvents ParseFloat (metric +:+ String ":" rest) = Some (events, log) ->
  incs samplesReceived log
  = (if strings.Contains rest "|#" then 1 else length (strings.Split rest ":"))%nat
  /\ incs (sampleErrors "malformed_line") log = 0%nat
  /\ (Forall (fun sample => statTypeOf sample <> "ms") (samplesOf rest) ->
      (length events <= incs samplesReceived log)%nat).
Proof.
  intros Hne Hm Hv. rewrite (lineToEvents_samples ParseFloat) by assumption.
  fold (samplesOf rest). intros E.
  destruct (samplesLoop_shape _ _ _ _ _ E) as (Hn & Hall & _).
  split; [|split].
  - rewrite Hn. unfold samplesOf. destruct (strings.Contains rest "|#"); reflexivity.
  - apply (incs_none _ _ _ Hall). reflexivity.
  - rewrite Hn. clear Hn Hall. revert events log E.
    induction (samplesOf rest) as [|sample samples IH]; intros events log E Hms.
    + injection E as <- _. simpl. lia.
    + cbn [samplesLoop] in E.
      destruct (sampleToEvents ParseFloat metric sample) as [[ev1 g1]|] eqn:E1;
        [|discriminate].
      cbn [mbind option_bind] in E.
      destruct (samplesLoop ParseFloat metric samples) as [[ev2 g2]|] eqn:E2;
        [|discriminate].
      cbn in E. injection E as <- _.
      inversion Hms as [|? ? Hs Hrest]; subst.
      destruct (sampleToEvents_shape _ _ _ _ _ E1) as (g & e & n & _ & _ & -> & _ & Hle).
      specialize (Hle Hs). specialize (IH _ _ eq_refl Hrest).
      rewrite length_app, repeat_length. simpl. lia.
Qed.

Lemma linesLoop_counters (lines : list string) :
  forall events log,
    linesLoop ParseFloat lines = Some (events, log) ->
    incs linesReceived log = length lines /\ incs udpPackets log = 0%nat.
Proof.
  induction lines as [|line rest IH]; intros events log.
  - intros [= _ <-]. split; reflexivity.
  - cbn [linesLoop].
    destruct (lineToEvents ParseFloat line) as [[ev1 g1]|] eqn:E1; [|discriminate].
    cbn [mbind option_bind].
    destruct (linesLoop ParseFloat rest) as [[ev2 g2]|] eqn:E2; [|discriminate].
    cbn. intros [= _ <-]. destruct (IH _ _ eq_refl) as [Hl Hu].
    pose proof (lineToEvents_log _ _ _ _ E1) as Hg.
    change (linesReceived :: g1 ++ g2) with ([linesReceived] ++ g1 ++ g2).
    rewrite !incs_app, Hl, Hu, incs_one.
    rewrite (incs_other udpPackets linesReceived) by discriminate.
    rewrite (incs_none lineStat linesReceived g1 Hg eq_refl).
    rewrite (incs_none lineStat udpPackets g1 Hg eq_refl).
    split; reflexivity.
Qed.

(** X11: a packet that [handlePacket] gets through increments [udpPackets]
    once and [linesReceived] once for each of its lines, the empty ones among
    them: one more than it holds newline bytes. *)
Theorem handlePacket_counters (packet : string) (events : Events)
    (log : list Stat) :
  handlePacket ParseFloat packet = Some (events, log) ->
  incs udpPackets log = 1%nat
  /\ incs linesReceived log = length (strings.Split packet newline)
  /\ length (strings.Split packet newline)
     = S (length (filter (fun c => c = newline) (list_ascii_of_string packet))).
Proof.
  unfold handlePacket.
  destruct (linesLoop ParseFloat (strings.Split packet newline)) as [[ev g]|] eqn:E;
    [|discriminate].
  cbn. intros [= _ <-]. destruct (linesLoop_counters _ _ _ E) as [Hl Hu].
  split; [|split].
  - change (udpPackets :: g) with ([udpPackets] ++ g).
    rewrite incs_app, incs_one, Hu. reflexivity.
  - change (udpPackets :: g) with ([udpPackets] ++ g).
    rewrite incs_app, Hl. rewrite incs_other by discriminate. reflexivity.
  - apply Split_length.
Qed.

End PacketCounters.

Lemma lineToEvents_samplesReceived_witness :
  incs samplesReceived [samplesReceived; samplesReceived; sampleErrors "illegal_event"]
  = (if strings.Contains "1|c:2|s" "|#" then 1
     else length (strings.Split "1|c:2|s" ":"))%nat
  /\ incs (sampleErrors "malformed_line")
       [samplesReceived; samplesReceived; sampleErrors "illegal_event"] = 0%nat
  /\ (Forall (fun sample => statTypeOf sample <> "ms") (samplesOf "1|c:2|s") ->
      (length [CounterEvent "a" float64.one ∅]
       <= incs samplesReceived
            [samplesReceived; samplesReceived; sampleErrors "illegal_event"])%nat).
Proof.
  apply (lineToEvents_samplesReceived ShortDecimal.ParseFloat "a" "1|c:2|s").
  - discriminate.
  - split; [discriminate | exact I].
  - vm_compute. reflexivity.
  - vm_compute. reflexivity.
Defined.

Lemma handlePacket_counters_witness :
  incs udpPackets [udpPackets; linesReceived; samplesReceived; linesReceived] = 1%nat
  /\ incs linesReceived [udpPackets; linesReceived; samplesReceived; linesReceived]
     = length (strings.Split ("a:1|c" +:+ String newline "") newline)
  /\ length (strings.Split ("a:1|c" +:+ String newline "") newline)
     = S (length (filter (fun c => c = newline)
                    (list_ascii_of_string ("a:1|c" +:+ String newline "")))).
Proof.
  apply (handlePacket_counters ShortDecimal.ParseFloat
           ("a:1|c" +:+ String newline "") [CounterEvent "a" float64.one ∅]).
  vm_compute. reflexivity.
Defined.

(** ** Samples without a modifier and samples with a bad factor *)

Lemma ltb_neg_inv (f : spec_float) :
  float64.ltb f float64.zero = true ->
  f = S754_infinity true \/ exists m e, f = S754_finite true m e.
Proof.
  destruct f as [s|[|]| |[|] m e]; try discriminate; intros _; eauto.
Qed.

(** The integer part of [1/f] is not positive when [f] is below zero. *)
Lemma to_int_reciprocal_neg (f : spec_float) :
  float64.ltb f float64.zero = true ->
  float64.to_int (float64.div float64.one f) <= 0.
Proof.
  intros Hneg. destruct (ltb_neg_inv f Hneg) as [->|(m & e & ->)].
  - vm_compute. discriminate.
  - unfold float64.div, float64.one, SFdiv.
    destruct (SFdiv_core_binary float64.prec float64.emax
                4503599627370496 (-52) (Z.pos m) e) as [[mz ez] lz].
    pose proof (binary_round_aux_sign (xorb false true) mz ez lz) as Hs.
    assert (Hmin : float64.minInt <= 0) by (vm_compute; discriminate).
    destruct (binary_round_aux float64.prec float64.emax (xorb false true) mz ez lz)
      as [s'|s'| |s' m' e'].
    + vm_compute. discriminate.
    + exact Hmin.
    + exact Hmin.
    + subst s'. unfold float64.to_int, float64.trunc. cbn [xorb cond_Zopp].
      pose proof (Z.shiftl_nonneg (Z.pos m') e') as [_ Hnn].
      specialize (Hnn ltac:(lia)).
      destruct ((float64.minInt <=? - Z.shiftl (Z.pos m') e')
                && (- Z.shiftl (Z.pos m') e' <=? float64.maxInt)); lia.
Qed.

Section SampleFacts.

Variable ParseFloat : string -> spec_float * bool.

Lemma sampleToEvents_plain (metric V T : string) (x : spec_float) :
  lacks "|" V -> lacks "|" T -> ParseFloat V = (x, false) ->
  sampleToEvents ParseFloat metric (V +:+ String "|" T)
  = Some (match buildEvent T metric x
                  (strings.IndexIsZero V "+" || strings.IndexIsZero V "-") ∅ with
          | inl e => ([e], [samplesReceived])
          | inr _ => ([], [samplesReceived; sampleErrors "illegal_event"])
          end).
Proof.
  intros HV HT HPF. unfold sampleToEvents.
  rewrite (Split_app V) by exact HV. rewrite (Split_lacks T) by exact HT.
  cbn [length Nat.ltb Nat.leb orb]. rewrite HPF.
  cbn [existsb componentsLoop mbind option_bind v_multiplyEvents v_value v_labels].
  change (Z.to_nat 1) with 1%nat. rewrite emitLoop_eq.
  destruct (buildEvent T metric x _ ∅); reflexivity.
Qed.

(** X12: a line [metric:X|T] with one sample and no modifier gives what
    [buildEvent] makes of the type: one counter event for [c], one gauge event
    for [g], relative exactly when the text of the value starts with a sign,
    one timer event for [ms] and [h], each with the parsed value and no
    labels; for any other type, [s] among them, no event and one
    [illegal_event]. *)
Theorem lineToEvents_plain_sample (metric X T : string) (x : spec_float) :
  metric <> EmptyString -> lacksb ":" metric = true ->
  plain X = true -> plain T = true ->
  utf8.ValidString (metric +:+ ":" +:+ X +:+ "|" +:+ T) = true ->
  ParseFloat X = (x, false) ->
  lineToEvents ParseFloat (metric +:+ ":" +:+ X +:+ "|" +:+ T)
  = Some (if String.eqb T "c" then
            ([CounterEvent metric x ∅], [samplesReceived])
          else if String.eqb T "g" then
            ([GaugeEvent metric x
                (strings.HasPrefix X "+" || strings.HasPrefix X "-") ∅],
             [samplesReceived])
          else if String.eqb T "ms" || String.eqb T "h" then
            ([TimerEvent metric x ∅], [samplesReceived])
          else ([], [samplesReceived; sampleErrors "illegal_event"])).
Proof.
  intros Hne Hm HX HT Hv HPX. apply lacksb_lacks in Hm.
  apply plain_lacks in HX as [HXc HXp]. apply plain_lacks in HT as [HTc HTp].
  change (metric +:+ ":" +:+ X +:+ "|" +:+ T)
    with (metric +:+ String ":" (X +:+ String "|" T)) in *.
  rewrite lineToEvents_one_sample; try assumption.
  2:{ apply lacks_app. split; [exact HXc|]. split; [discriminate | exact HTc]. }
  rewrite (sampleToEvents_plain metric X T x) by assumption.
  unfold buildEvent, strings.IndexIsZero.
  destruct (String.eqb T "c"); [reflexivity|].
  destruct (String.eqb T "g"); [reflexivity|].
  destruct (String.eqb T "ms" || String.eqb T "h"); [reflexivity|].
  destruct (String.eqb T "s"); reflexivity.
Qed.

(** X13: a timer sample [X|ms|@F] whose factor is below zero gives no event
    and no error is counted for it: the number of events, the integer part of
    [1/f], is not positive. *)
Theorem timer_negative_factor (metric X F : string) (x f : spec_float)
    (err : bool) :
  metric <> EmptyString -> lacksb ":" metric = true ->
  plain X = true -> plain F = true ->
  utf8.ValidString (metric +:+ ":" +:+ X +:+ "|ms|@" +:+ F) = true ->
  ParseFloat X = (x, false) -> ParseFloat F = (f, err) ->
  float64.ltb f float64.zero = true ->
  lineToEvents ParseFloat (metric +:+ ":" +:+ X +:+ "|ms|@" +:+ F)
  = Some ([], samplesReceived
              :: (if err then [sampleErrors "invalid_sample_factor"] else [])).
Proof.
  intros Hne Hm HX HF Hv HPX HPF Hneg. apply lacksb_lacks in Hm.
  apply plain_lacks in HX as [HXc HXp]. apply plain_lacks in HF as [HFc HFp].
  change (metric +:+ ":" +:+ X +:+ "|ms|@" +:+ F)
    with (metric +:+ String ":" (X +:+ String "|" ("ms" +:+ String "|" (String "@" F)))) in *.
  rewrite lineToEvents_one_sample; try assumption.
  2:{ apply lacks_app. split; [exact HXc|]. simpl. repeat split; try discriminate. exact HFc. }
  rewrite (sampleToEvents_modifier ParseFloat metric X "ms" (String "@" F) x);
    try assumption; try discriminate.
  2:{ simpl. repeat split; discriminate. }
  2:{ simpl. split; [discriminate | exact HFp]. }
  rewrite (componentStep_timer_factor ParseFloat F f err _ HPF).
  cbn [mbind option_bind v_multiplyEvents v_value v_labels].
  assert (effectiveFactor f = f) as ->.
  { unfold effectiveFactor.
    destruct (ltb_neg_inv f Hneg) as [->|(m & e & ->)]; reflexivity. }
  pose proof (to_int_reciprocal_neg f Hneg) as Hk.
  replace (Z.to_nat (float64.to_int (float64.div float64.one f))) with 0%nat by lia.
  cbn [emitLoop]. rewrite app_nil_r. reflexivity.
Qed.

(** X14: a sampling factor that does not parse, for which the library
    returns zero with its error, is counted as [invalid_sample_factor] and then
    ignored: the counter or timer sample gives the one event it gives without
    the factor, with the parsed value. *)
Theorem invalid_sample_factor_ignored (metric X F : string) (x f : spec_float) :
  metric <> EmptyString -> lacksb ":" metric = true ->
  plain X = true -> plain F = true ->
  ParseFloat X = (x, false) -> float64.valid x = true ->
  ParseFloat F = (f, true) -> float64.eqb f float64.zero = true ->
  utf8.ValidString (metric +:+ ":" +:+ X +:+ "|c|@" +:+ F) = true ->
  utf8.ValidString (metric +:+ ":" +:+ X +:+ "|ms|@" +:+ F) = true ->
  lineToEvents ParseFloat (metric +:+ ":" +:+ X +:+ "|c|@" +:+ F)
  = Some ([CounterEvent metric x ∅],
          [samplesReceived; sampleErrors "invalid_sample_factor"])
  /\ lineToEvents ParseFloat (metric +:+ ":" +:+ X +:+ "|ms|@" +:+ F)
     = Some ([TimerEvent metric x ∅],
             [samplesReceived; sampleErrors "invalid_sample_factor"]).
Proof.
  intros Hne Hm HX HF HPX Hvalid HPF Hz Hv Hv'. apply lacksb_lacks in Hm.
  apply plain_lacks in HX as [HXc HXp]. apply plain_lacks in HF as [HFc HFp].
  assert (Heff : effectiveFactor f = float64.one).
  { unfold effectiveFactor. rewrite Hz. reflexivity. }
  split.
  - change (metric +:+ ":" +:+ X +:+ "|c|@" +:+ F)
      with (metric +:+ String ":" (X +:+ String "|" ("c" +:+ String "|" (String "@" F)))) in *.
    rewrite lineToEvents_one_sample; try assumption.
    2:{ apply lacks_app. split; [exact HXc|]. simpl. repeat split; try discriminate. exact HFc. }
    rewrite (sampleToEvents_modifier ParseFloat metric X "c" (String "@" F) x);
      try assumption; try discriminate.
    2:{ simpl. repeat split; discriminate. }
    2:{ simpl. split; [discriminate | exact HFp]. }
    rewrite (componentStep_counter_factor ParseFloat F f true _ HPF).
    cbn [mbind option_bind v_multiplyEvents v_value v_labels].
    rewrite Heff, (div_one x Hvalid). reflexivity.
  - clear Hv. rename Hv' into Hv.
    change (metric +:+ ":" +:+ X +:+ "|ms|@" +:+ F)
      with (metric +:+ String ":" (X +:+ String "|" ("ms" +:+ String "|" (String "@" F)))) in *.
    rewrite lineToEvents_one_sample; try assumption.
    2:{ apply lacks_app. split; [exact HXc|]. simpl. repeat split; try discriminate. exact HFc. }
    rewrite (sampleToEvents_modifier ParseFloat metric X "ms" (String "@" F) x);
      try assumption; try discriminate.
    2:{ simpl. repeat split; discriminate. }
    2:{ simpl. split; [discriminate | exact HFp]. }
    rewrite (componentStep_timer_factor ParseFloat F f true _ HPF).
    cbn [mbind option_bind v_multiplyEvents v_value v_labels].
    rewrite Heff. reflexivity.
Qed.

End SampleFacts.

Lemma lineToEvents_plain_sample_witness :
  lineToEvents ShortDecimal.ParseFloat ("temp" +:+ ":" +:+ "+3" +:+ "|" +:+ "g")
  = Some (if String.eqb "g" "c" then
            ([CounterEvent "temp" (fst (ShortDecimal.ParseFloat "+3")) ∅],
             [samplesReceived])
          else if String.eqb "g" "g" then
            ([GaugeEvent "temp" (fst (ShortDecimal.ParseFloat "+3"))
                (strings.HasPrefix "+3" "+" || strings.HasPrefix "+3" "-") ∅],
             [samplesReceived])
          else if String.eqb "g" "ms" || String.eqb "g" "h" then
            ([TimerEvent "temp" (fst (ShortDecimal.ParseFloat "+3")) ∅],
             [samplesReceived])
          else ([], [samplesReceived; sampleErrors "illegal_event"])).
Proof.
  apply (lineToEvents_plain_sample ShortDecimal.ParseFloat "temp" "+3" "g"
           (fst (ShortDecimal.ParseFloat "+3")));
    try (vm_compute; reflexivity); discriminate.
Defined.

Lemma timer_negative_factor_witness :
  lineToEvents ShortDecimal.ParseFloat ("t" +:+ ":" +:+ "5" +:+ "|ms|@" +:+ "-0.5")
  = Some ([], samplesReceived
              :: (if false then [sampleErrors "invalid_sample_factor"] else [])).
Proof.
  apply (timer_negative_factor ShortDecimal.ParseFloat "t" "5" "-0.5"
           (fst (ShortDecimal.ParseFloat "5"))
           (fst (ShortDecimal.ParseFloat "-0.5")) false);
    try (vm_compute; reflexivity); discriminate.
Defined.

Lemma invalid_sample_factor_ignored_witness :
  lineToEvents ShortDecimal.ParseFloat ("n" +:+ ":" +:+ "7" +:+ "|c|@" +:+ "x")
  = Some ([CounterEvent "n" (fst (ShortDecimal.ParseFloat "7")) ∅],
          [samplesReceived; sampleErrors "invalid_sample_factor"])
  /\ lineToEvents ShortDecimal.ParseFloat ("n" +:+ ":" +:+ "7" +:+ "|ms|@" +:+ "x")
     = Some ([TimerEvent "n" (fst (ShortDecimal.ParseFloat "7")) ∅],
             [samplesReceived; sampleErrors "invalid_sample_factor"]).
Proof.
  apply (invalid_sample_factor_ignored ShortDecimal.ParseFloat "n" "7" "x"
           (fst (ShortDecimal.ParseFloat "7"))
           (fst (ShortDecimal.ParseFloat "x")));
    try (vm_compute; reflexivity); discriminate.
Defined.

(** ** labelNames and saveLabelValues *)

#[local] Instance string_le_total : Total string_le.
Proof. intros a b. apply String.leb_total. Qed.

(** X15: [labelNames] returns the keys of the label map, each of them
    once, in the bytewise order of [sort.Strings]. *)
Theorem labelNames_sorted_keys (labels : Labels) :
  Sorted string_le (labelNames labels)
  /\ NoDup (labelNames labels)
  /\ (forall n, n ∈ labelNames labels <-> is_Some (labels !! n))
  /\ length (labelNames labels) = size labels.
Proof.
  unfold labelNames.
  change (map fst (map_to_list labels)) with ((map_to_list labels).*1).
  split; [apply Sorted_merge_sort, _|]. split; [|split].
  - rewrite merge_sort_Permutation. apply NoDup_fst_map_to_list.
  - intros n. rewrite merge_sort_Permutation, list_elem_of_fmap. split.
    + intros ([k v] & -> & Hin). apply elem_of_map_to_list in Hin. eauto.
    + intros [v Hv]. exists (n, v). split; [reflexivity|].
      apply elem_of_map_to_list. exact Hv.
  - rewrite merge_sort_Permutation, length_fmap. apply length_map_to_list.
Qed.

Section SaveFacts.

Variable LabelsToSignature : Labels -> Z.

Lemma saveLabelValues_lookup (now : Z) (name : string) (labels : Labels)
    (ttl : Z) (lv : gmap string (gmap Z LabelValues)) :
  let hash := hashNameAndLabels LabelsToSignature name labels in
  let lv' := saveLabelValues LabelsToSignature now name labels ttl lv in
  recordIn lv' name hash
  = Some (mkLabelValues now
            (match recordIn lv name hash with
             | Some r => lvLabels r
             | None => labels
             end) ttl)
  /\ (forall n h, (n, h) <> (name, hash) -> recordIn lv' n h = recordIn lv n h).
Proof.
  cbv zeta. unfold saveLabelValues, recordIn. split.
  - rewrite lookup_insert_eq. cbn [mbind option_bind]. rewrite lookup_insert_eq.
    destruct (lv !! name) as [records|]; cbn [default id mbind option_bind].
    + destruct (records !! hashNameAndLabels LabelsToSignature name labels);
        reflexivity.
    + rewrite lookup_empty. reflexivity.
  - intros n h Hne. destruct (decide (n = name)) as [->|Hn].
    + rewrite lookup_insert_eq. cbn [mbind option_bind].
      rewrite lookup_insert_ne by congruence.
      destruct (lv !! name) as [records|]; cbn [default mbind option_bind];
        [reflexivity | apply lookup_empty].
    + rewrite lookup_insert_ne by congruence. reflexivity.
Qed.

(** X16: [saveLabelValues] leaves, under the name and the hash of the
    labels, a record with the time of the call and the TTL passed.  The labels
    of that record are those of the record that was there before, if there was
    one (also when it belongs to another label set with the same hash), and
    the labels passed otherwise.  No other record changes. *)
Theorem saveLabelValues_record (now : Z) (name : string) (labels : Labels)
    (ttl : Z) (lv : gmap string (gmap Z LabelValues)) :
  let hash := hashNameAndLabels LabelsToSignature name labels in
  let lv' := saveLabelValues LabelsToSignature now name labels ttl lv in
  recordIn lv' name hash
  = Some (mkLabelValues now
            (match recordIn lv name hash with
             | Some r => lvLabels r
             | None => labels
             end) ttl)
  /\ (forall n h, (n, h) <> (name, hash) -> recordIn lv' n h = recordIn lv n h).
Proof. apply saveLabelValues_lookup. Qed.

End SaveFacts.

(** ** handleEvent: gauges, timers and the record of the series *)

Lemma childOf_alter_childDo {O} (Elements : gmap string (Vec O))
    (metricName : string) (key : list string) (op : Op) (vec : Vec O)
    (ops : list Op) :
  Elements !! metricName = Some vec ->
  vecChildren vec !! key = Some ops ->
  childOf (alter (childDo op key) metricName Elements) metricName key
  = Some (ops ++ [op]).
Proof.
  intros Hvec Hops. unfold childOf. rewrite lookup_alter_eq, Hvec. simpl.
  rewrite lookup_alter_eq, Hops. reflexivity.
Qed.

Section EventFacts.

Variable validDesc : string -> list string -> bool.
Variable validValue : string -> bool.
Variable LabelsToSignature : Labels -> Z.
Variable mapper : MetricMapper.

(** [handleEvent] past the drop action and the sanitizer. *)
Lemma handleEvent_go (now : Z) (event : Event) (b : Exporter)
    (metricName : string) :
  dropped mapper event = false ->
  familyName mapper event = Some metricName ->
  handleEvent validDesc validValue LabelsToSignature mapper now event b
  = Some
      (let mapping := (mappingOf mapper event).1.1 in
       let b0 := if (mappingOf mapper event).2 then b else Inc eventsUnmapped b in
       let labels := familyLabels mapper event in
       let help := helpOf mapping in
       match event with
       | CounterEvent _ v _ =>
           if float64.ltb v float64.zero then
             Inc (eventStats "illegal_negative_counter") b0
           else
             observe LabelsToSignature "counter" (opOf event) now metricName labels
               (Ttl mapping)
               (CounterContainer_Get validDesc validValue metricName labels help
                  (Counters b0) (registry b0))
               putCounters b0
       | GaugeEvent _ _ _ _ =>
           observe LabelsToSignature "gauge" (opOf event) now metricName labels
             (Ttl mapping)
             (GaugeContainer_Get validDesc validValue metricName labels help
                (Gauges b0) (registry b0))
             putGauges b0
       | TimerEvent _ _ _ =>
           match timerTypeOf mapper mapping with
           | TimerTypeHistogram =>
               observe LabelsToSignature "timer" (opOf event) now metricName labels
                 (Ttl mapping)
                 (HistogramContainer_Get validDesc validValue mapper metricName
                    labels help mapping (Histograms b0) (registry b0))
                 putHistograms b0
           | _ =>
               observe LabelsToSignature "timer" (opOf event) now metricName labels
                 (Ttl mapping)
                 (SummaryContainer_Get validDesc validValue mapper metricName
                    labels help mapping (Summaries b0) (registry b0))
                 putSummaries b0
           end
       end).
Proof.
  intros Hdrop Hname.
  unfold handleEvent, dropped, familyName, familyLabels, timerTypeOf in *.
  destruct (mappingOf mapper event) as [[mapping mlabels] present].
  cbn [fst snd] in *.
  assert (Hgo : forall (A : Type) (x y : A),
            match Action mapping with ActionTypeDrop => x | _ => y end = y).
  { intros A x y. destruct (Action mapping); [reflexivity..|discriminate]. }
  rewrite Hgo. clear Hgo Hdrop.
  destruct present; rewrite Hname; cbn [mbind option_bind];
    destruct event as [n v l|n v r l|n v l]; cbn [Value opOf];
    try (destruct (float64.ltb v float64.zero); reflexivity);
    try reflexivity;
    destruct (MappingTimerType mapping);
    try destruct (DefaultTimerType (Defaults mapper)); reflexivity.
Qed.

Ltac success_case Hkey :=
  cbn [Inc Counters Gauges Summaries Histograms registry];
  match goal with
  | |- context [observe _ _ _ _ _ _ _ ?get _ _] =>
      let E' := fresh "E'" in
      let reg' := fresh "reg'" in
      let res := fresh "res" in
      let Hget := fresh "Hget" in
      let vec := fresh "vec" in
      let Hvec := fresh "Hvec" in
      let Hops := fresh "Hops" in
      destruct get as [[E' reg'] res] eqn:Hget;
      cbn [snd] in Hkey; subst res;
      unfold CounterContainer_Get, GaugeContainer_Get, SummaryContainer_Get,
        HistogramContainer_Get in Hget;
      destruct (containerGet_child _ _ _ _ _ _ _ _ _ _ _ Hget)
        as (vec & Hvec & Hops);
      unfold observe;
      cbn [Inc putCounters putGauges putSummaries putHistograms labelValues
           stats Counters Gauges Summaries Histograms registry];
      split; [reflexivity|];
      split; [rewrite <- ?app_assoc; reflexivity|];
      split; [exact (childOf_alter_childDo _ _ _ _ vec _ Hvec Hops)
             | repeat split; reflexivity]
  end.

(** An event that reaches its child: the call on the child, the record of
    the series, the counters, and the families of the other types. *)
Lemma handleEvent_success (now : Z) (event : Event) (b : Exporter)
    (metricName : string) (key : list string) :
  dropped mapper event = false ->
  familyName mapper event = Some metricName ->
  rejected event = false ->
  lookupChild validDesc validValue mapper event b = Some key ->
  exists b',
    handleEvent validDesc validValue LabelsToSignature mapper now event b = Some b'
    /\ labelValues b'
       = saveLabelValues LabelsToSignature now metricName
           (familyLabels mapper event) (Ttl (mappingOf mapper event).1.1)
           (labelValues b)
    /\ stats b' = stats b ++ unmappedLog mapper event
                    ++ [eventStats (typeName event)]
    /\ match event with
       | CounterEvent _ _ _ =>
           childOf (Counters b') metricName key
           = Some (default [] (childOf (Counters b) metricName key) ++ [opOf event])
           /\ Gauges b' = Gauges b /\ Summaries b' = Summaries b
           /\ Histograms b' = Histograms b
       | GaugeEvent _ _ _ _ =>
           childOf (Gauges b') metricName key
           = Some (default [] (childOf (Gauges b) metricName key) ++ [opOf event])
           /\ Counters b' = Counters b /\ Summaries b' = Summaries b
           /\ Histograms b' = Histograms b
       | TimerEvent _ _ _ =>
           match timerTypeOf mapper (mappingOf mapper event).1.1 with
           | TimerTypeHistogram =>
               childOf (Histograms b') metricName key
               = Some (default [] (childOf (Histograms b) metricName key)
                       ++ [opOf event])
               /\ Counters b' = Counters b /\ Gauges b' = Gauges b
               /\ Summaries b' = Summaries b
           | _ =>
               childOf (Summaries b') metricName key
               = Some (default [] (childOf (Summaries b) metricName key)
                       ++ [opOf event])
               /\ Counters b' = Counters b /\ Gauges b' = Gauges b
               /\ Histograms b' = Histograms b
           end
       end.
Proof.
  intros Hdrop Hname Hrej Hkey.
  rewrite (handleEvent_go now event b metricName Hdrop Hname).
  eexists. split; [reflexivity|]. cbv zeta.
  unfold lookupChild in Hkey. rewrite Hname in Hkey.
  cbn [mbind option_bind] in Hkey. unfold unmappedLog.
  destruct ((mappingOf mapper event).2);
    destruct event as [n v l|n v r l|n v l];
    cbn [rejected typeName] in *; try rewrite Hrej;
    try destruct (timerTypeOf mapper (mappingOf mapper _).1.1);
    success_case Hkey.
Qed.

(** X17: a gauge event that reaches its child.  The child has received one
    more call: the addition of the value when the event is relative (the value
    was written with a sign), the setting of the value otherwise.  The families
    of the other types are as before and [eventStats] moves once, under
    [gauge]. *)
Theorem handleEvent_gauge (now : Z) (name : string) (v : spec_float)
    (relative : bool) (labels : Labels) (b : Exporter) (metricName : string)
    (key : list string) :
  dropped mapper (GaugeEvent name v relative labels) = false ->
  familyName mapper (GaugeEvent name v relative labels) = Some metricName ->
  lookupChild validDesc validValue mapper (GaugeEvent name v relative labels) b
  = Some key ->
  exists b',
    handleEvent validDesc validValue LabelsToSignature mapper now
      (GaugeEvent name v relative labels) b = Some b'
    /\ childOf (Gauges b') metricName key
       = Some (default [] (childOf (Gauges b) metricName key)
               ++ [if relative then OpAdd v else OpSet v])
    /\ Counters b' = Counters b /\ Summaries b' = Summaries b
    /\ Histograms b' = Histograms b
    /\ stats b' = stats b ++ unmappedLog mapper (GaugeEvent name v relative labels)
                    ++ [eventStats "gauge"].
Proof.
  intros Hdrop Hname Hkey.
  destruct (handleEvent_success now _ b metricName key Hdrop Hname eq_refl Hkey)
    as (b' & Hb' & _ & Hstats & Hchild & Hc & Hs & Hh).
  exists b'. repeat split; assumption.
Qed.


Lemma mappingOf_Ttl (event : Event) :
  Ttl (mappingOf mapper event).1.1 = ttlInForce mapper event.
Proof.
  unfold mappingOf, ttlInForce.
  destruct (GetMapping mapper (MetricName event) (EventMetricType event))
    as [[[rule|] mlabels] present]; cbn [fst snd]; [reflexivity|].
  destruct (DefaultTtl (Defaults mapper) =? 0) eqn:E; [|reflexivity].
  apply Z.eqb_eq in E. rewrite E. reflexivity.
Qed.

(** X19: an event of any type that reaches its child leaves the record of
    its series, under the sanitized name and the hash of the name and the
    labels, with the time of the call and the TTL in force: the TTL of the rule
    that [GetMapping] returns for the event, the default TTL of the mapper
    when it returns none.  No other record changes. *)
Theorem handleEvent_saves_record (now : Z) (event : Event) (b : Exporter)
    (metricName : string) (key : list string) :
  dropped mapper event = false ->
  familyName mapper event = Some metricName ->
  rejected event = false ->
  lookupChild validDesc validValue mapper event b = Some key ->
  exists b',
    handleEvent validDesc validValue LabelsToSignature mapper now event b = Some b'
    /\ recordOf b' metricName
         (hashNameAndLabels LabelsToSignature metricName (familyLabels mapper event))
       = Some (mkLabelValues now
                 (match recordOf b metricName
                          (hashNameAndLabels LabelsToSignature metricName
                             (familyLabels mapper event)) with
                  | Some r => lvLabels r
                  | None => familyLabels mapper event
                  end)
                 (match (GetMapping mapper (MetricName event)
                           (EventMetricType event)).1.1 with
                  | Some rule => Ttl rule
                  | None => DefaultTtl (Defaults mapper)
                  end))
    /\ (forall n h,
          (n, h) <> (metricName,
                     hashNameAndLabels LabelsToSignature metricName
                       (familyLabels mapper event)) ->
          recordOf b' n h = recordOf b n h).
Proof.
  intros Hdrop Hname Hrej Hkey.
  destruct (handleEvent_success now _ b metricName key Hdrop Hname Hrej Hkey)
    as (b' & Hb' & Hlv & _).
  exists b'. split; [exact Hb'|]. unfold recordOf. rewrite Hlv.
  fold (ttlInForce mapper event). rewrite <- mappingOf_Ttl.
  apply (saveLabelValues_lookup LabelsToSignature).
Qed.

End EventFacts.

Lemma handleEvent_gauge_witness :
  exists b',
    handleEvent anyDesc anyValue noSignature noRules 100
      (GaugeEvent "temp" float64.one true ∅) NewExporter = Some b'
    /\ childOf (Gauges b') "temp" []
       = Some (default [] (childOf (Gauges NewExporter) "temp" [])
               ++ [if true then OpAdd float64.one else OpSet float64.one])
    /\ Counters b' = Counters NewExporter /\ Summaries b' = Summaries NewExporter
    /\ Histograms b' = Histograms NewExporter
    /\ stats b' = stats NewExporter
                    ++ unmappedLog noRules (GaugeEvent "temp" float64.one true ∅)
                    ++ [eventStats "gauge"].
Proof.
  apply (handleEvent_gauge anyDesc anyValue noSignature noRules 100 "temp"
           float64.one true ∅ NewExporter "temp" []);
    vm_compute; reflexivity.
Defined.


Lemma handleEvent_saves_record_witness :
  exists b',
    handleEvent anyDesc anyValue noSignature shortTtl 100
      (CounterEvent "foo" float64.one ∅) NewExporter = Some b'
    /\ recordOf b' "foo"
         (hashNameAndLabels noSignature "foo"
            (familyLabels shortTtl (CounterEvent "foo" float64.one ∅)))
       = Some (mkLabelValues 100
                 (match recordOf NewExporter "foo"
                          (hashNameAndLabels noSignature "foo"
                             (familyLabels shortTtl
                                (CounterEvent "foo" float64.one ∅))) with
                  | Some r => lvLabels r
                  | None => familyLabels shortTtl (CounterEvent "foo" float64.one ∅)
                  end)
                 (match (GetMapping shortTtl
                           (MetricName (CounterEvent "foo" float64.one ∅))
                           (EventMetricType (CounterEvent "foo" float64.one ∅))).1.1 with
                  | Some rule => Ttl rule
                  | None => DefaultTtl (Defaults shortTtl)
                  end))
    /\ (forall n h,
          (n, h) <> ("foo",
                     hashNameAndLabels noSignature "foo"
                       (familyLabels shortTtl (CounterEvent "foo" float64.one ∅))) ->
          recordOf b' n h = recordOf NewExporter n h).
Proof.
  apply (handleEvent_saves_record anyDesc anyValue noSignature shortTtl 100
           (CounterEvent "foo" float64.one ∅) NewExporter "foo" []);
    vm_compute; reflexivity.
Defined.

(** Under the mapper without rules whose default TTL is ten, the record of
    the unmapped counter [foo] handled at time 100 has the TTL ten. *)
Example handleEvent_default_ttl :
  (b ← handleEvent anyDesc anyValue noSignature shortTtl 100
         (CounterEvent "foo" float64.one ∅) NewExporter;
   recordOf b "foo" (hashNameAndLabels noSignature "foo" ∅))
  = Some (mkLabelValues 100 ∅ 10).
Proof. vm_compute. reflexivity. Qed.
